(** * ecr-copy: a shallow embedding of [main.go] and its specification

    The program copies a container image between two ECR repositories:
    [getManifest] resolves the image, [checkLayerAvails] computes the layers
    the destination lacks, [copyLayers]/[copyLayer] stream each of them
    through a part buffer into a multi-part upload while hashing, and
    [putManifest] republishes the manifest.

    The registry client, the HTTP body reader, the JSON decoder and the
    SHA-256 implementation are libraries the program calls.  The registry
    and the network are modelled as an environment whose answers may depend
    on the calls made so far; every call is recorded in a trace.  The body
    reader is a scripted stream that may deliver short reads.  SHA-256 is
    modelled by a block-buffered accumulator following FIPS 180-4. *)

From Stdlib Require Import ZArith List String Ascii Strings.Byte Lia.
From stdpp Require Import base option list strings gmap pretty.
From Equations Require Import Equations.

Local Open Scope Z_scope.

(** ** Bytes *)

Definition byte_to_Z (b : byte) : Z := Z.of_N (Byte.to_N b).

Definition byte_of_Z (z : Z) : byte :=
  match Byte.of_N (Z.to_N (z mod 256)) with
  | Some b => b
  | None => x00
  end.

(** ** crypto/sha256 *)

Module Sha256.

Definition chunk : nat := 64.

Definition u32 (v : Z) : Z := v mod 2 ^ 32.
Definition add32 (a b : Z) : Z := u32 (a + b).
Definition rotr (n v : Z) : Z :=
  Z.lor (Z.shiftr v n) (u32 (Z.shiftl v (32 - n))).
Definition not32 (v : Z) : Z := Z.lxor v (2 ^ 32 - 1).

Definition ch (e f g : Z) : Z := Z.lxor (Z.land e f) (Z.land (not32 e) g).
Definition maj (a b c : Z) : Z :=
  Z.lxor (Z.lxor (Z.land a b) (Z.land a c)) (Z.land b c).
Definition bsig0 (a : Z) : Z := Z.lxor (Z.lxor (rotr 2 a) (rotr 13 a)) (rotr 22 a).
Definition bsig1 (e : Z) : Z := Z.lxor (Z.lxor (rotr 6 e) (rotr 11 e)) (rotr 25 e).
Definition ssig0 (w : Z) : Z := Z.lxor (Z.lxor (rotr 7 w) (rotr 18 w)) (Z.shiftr w 3).
Definition ssig1 (w : Z) : Z := Z.lxor (Z.lxor (rotr 17 w) (rotr 19 w)) (Z.shiftr w 10).

(** The round constants and the initial state are the leading fractional
    bits of the cube and square roots of the first primes; they are
    computed here rather than tabulated. *)
Definition has_divisor (p : Z) : bool :=
  existsb (fun d => (p mod d =? 0) && (d <? p)) (map Z.of_nat (seq 2 18)).
Definition small_primes : list Z :=
  filter (fun p => negb (has_divisor p)) (map Z.of_nat (seq 2 310)).

Fixpoint cbrt_bits (bits : nat) (r n : Z) : Z :=
  match bits with
  | O => r
  | S b =>
      let c := r + 2 ^ Z.of_nat b in
      cbrt_bits b (if c * c * c <=? n then c else r) n
  end.
Definition icbrt (n : Z) : Z := cbrt_bits 40 0 n.

Definition K : list Z :=
  Eval vm_compute in
    map (fun p => u32 (icbrt (p * 2 ^ 96))) (take 64 small_primes).
Definition init : list Z :=
  Eval vm_compute in
    map (fun p => u32 (Z.sqrt (p * 2 ^ 64))) (take 8 small_primes).

(** Big-endian packing of bytes into 32-bit words and back. *)
Fixpoint be_words (p : list byte) : list Z :=
  match p with
  | b0 :: b1 :: b2 :: b3 :: q =>
      (byte_to_Z b0 * 2 ^ 24 + byte_to_Z b1 * 2 ^ 16
       + byte_to_Z b2 * 2 ^ 8 + byte_to_Z b3) :: be_words q
  | _ => []
  end.

Definition be_bytes (width : nat) (v : Z) : list byte :=
  map (fun i => byte_of_Z (Z.shiftr v (8 * Z.of_nat i))) (rev (seq 0 width)).

(** The message schedule, kept newest-first while it is extended. *)
Definition word_at (i : nat) (ws : list Z) : Z := nth i ws 0.

Fixpoint extend (n : nat) (rw : list Z) : list Z :=
  match n with
  | O => rw
  | S m =>
      let w := add32 (add32 (add32 (ssig1 (word_at 1 rw)) (word_at 6 rw))
                            (ssig0 (word_at 14 rw))) (word_at 15 rw) in
      extend m (w :: rw)
  end.

Definition schedule (blk : list byte) : list Z :=
  rev (extend 48 (rev (be_words blk))).

Definition round (v : list Z) (kw : Z * Z) : list Z :=
  match v with
  | [a; b; c; d; e; f; g; h] =>
      let t1 := add32 (add32 (add32 (add32 h (bsig1 e)) (ch e f g)) (fst kw)) (snd kw) in
      let t2 := add32 (bsig0 a) (maj a b c) in
      [add32 t1 t2; a; b; c; add32 d t1; e; f; g]
  | _ => v
  end.

(** One application of the compression function to a 64-byte block. *)
Definition block (hs : list Z) (blk : list byte) : list Z :=
  zip_with add32 hs (fold_left round (zip K (schedule blk)) hs).

(** Compress every complete block at the front of [p]; what is left is
    shorter than a block and stays buffered. *)
Equations? absorb (hs : list Z) (p : list byte) : list Z * list byte
  by wf (length p) lt :=
  absorb hs p with decide (chunk <= length p)%nat => {
    | left _ := absorb (block hs (take chunk p)) (drop chunk p);
    | right _ := (hs, p) }.
Proof. rewrite length_drop. unfold chunk in *. lia. Qed.

(** The accumulator of [sha256.New()]: chaining value, buffered tail and
    the number of bytes written (a uint64). *)
Record digest : Type := Digest { h : list Z; x : list byte; len : Z }.

Definition New : digest := {| h := init; x := []; len := 0 |}.

Definition Write (d : digest) (p : list byte) : digest :=
  let r := absorb (h d) (x d ++ p) in
  {| h := fst r; x := snd r; len := (len d + Z.of_nat (length p)) mod 2 ^ 64 |}.

Definition padding (n : Z) : list byte :=
  x80 :: repeat x00 (Z.to_nat ((55 - n) mod 64))
    ++ be_bytes 8 ((n * 8) mod 2 ^ 64).

(** [d.Sum(nil)]: pad a copy of the accumulator and serialise its state. *)
Definition Sum (d : digest) : list byte :=
  let r := absorb (h d) (x d ++ padding (len d)) in
  flat_map (be_bytes 4) (fst r).

(** [sha256.Sum256]: the digest of a whole message in one pass. *)
Definition Sum256 (data : list byte) : list byte := Sum (Write New data).

End Sha256.

(** ** fmt: the verbs the program uses *)

Definition hex_digit (n : Z) : ascii :=
  ascii_of_nat (Z.to_nat (if n <? 10 then 48 + n else 87 + n)).

(** [%x] applied to a byte slice: two lower-case digits per byte. *)
Fixpoint hex_of_bytes (p : list byte) : string :=
  match p with
  | [] => EmptyString
  | b :: q =>
      String (hex_digit (byte_to_Z b / 16))
        (String (hex_digit (byte_to_Z b mod 16)) (hex_of_bytes q))
  end.

Fixpoint zeros (n : nat) : string :=
  match n with
  | O => EmptyString
  | S m => String "0" (zeros m)
  end.

(** The [0] flag with a width: pad on the left with zeros up to the width. *)
Definition pad0 (width : nat) (s : string) : string :=
  (zeros (width - String.length s) ++ s)%string.

Definition bytes_of_string (s : string) : list byte :=
  map byte_of_ascii (list_ascii_of_string s).


(** ** strings and regexp *)

(** [strings.Cut(s, ":")]: the text before and after the first colon. *)
Fixpoint cut_colon (s : string) : string * string * bool :=
  match s with
  | EmptyString => (EmptyString, EmptyString, false)
  | String c r =>
      if Ascii.eqb c ":" then (EmptyString, r, true)
      else let '(before, after, found) := cut_colon r in
           (String c before, after, found)
  end.

Definition hex_class (c : ascii) : bool :=
  let n := nat_of_ascii c in
  ((48 <=? n) && (n <=? 57) || (97 <=? n) && (n <=? 102))%nat.

Fixpoint all_chars (f : ascii -> bool) (s : string) : bool :=
  match s with
  | EmptyString => true
  | String c r => f c && all_chars f r
  end.

(** [hexRe.MatchString], for [hexRe = ^[a-f0-9]+$]. *)
Definition hexRe (s : string) : bool :=
  negb (String.eqb s EmptyString) && all_chars hex_class s.

(** ** Data model *)

Record imageLayer : Type := ImageLayer {
  MediaType : string;
  Size : Z;
  Digest : string
}.

Record manifest : Type := Manifest {
  Config : imageLayer;
  Layers : list imageLayer
}.

(** The request and response shapes of the registry client that the
    program touches.  The client's string and integer pointers are
    modelled by their targets. *)
Record ImageIdentifier : Type := {
  ImageDigest : option string;
  ImageTag : option string
}.

Record Layer : Type := {
  LayerDigest : string;
  LayerAvailability : string
}.

Record InitiateLayerUploadOutput : Type := {
  UploadId : string;
  PartSize : Z
}.

(** ** The response body: an [io.Reader] that may deliver short reads *)

Inductive read_event : Type :=
| Short (k : nat)   (* this read hands over at most [k] bytes *)
| Stall             (* this read returns 0 bytes and no error *)
| Broken (e : string). (* this read fails with an error other than EOF *)

Record reader : Type := Reader {
  pending : list byte;       (* the bytes not yet delivered *)
  script : list read_event;  (* how the coming reads behave *)
  eof_with_data : bool       (* report EOF together with the last bytes *)
}.

Inductive read_error : Type :=
| NoError
| EOF
| OtherError (e : string).

Definition deliver (rd : reader) (rest : list read_event) (n : nat)
  : list byte * read_error * reader :=
  match pending rd with
  | [] => ([], EOF, Reader [] rest (eof_with_data rd))
  | _ =>
      let data := take n (pending rd) in
      let left := drop n (pending rd) in
      let err :=
        match data, left with
        | _ :: _, [] => if eof_with_data rd then EOF else NoError
        | _, _ => NoError
        end in
      (data, err, Reader left rest (eof_with_data rd))
  end.

(** [rd.Read(p)] with [len(p) = cap]: the bytes copied into [p], the error
    and the reader afterwards.  Once the script is used up every read
    fills as much of [p] as the stream still has. *)
Definition Read (rd : reader) (cap : nat) : list byte * read_error * reader :=
  match script rd with
  | Broken e :: rest => ([], OtherError e, Reader (pending rd) rest (eof_with_data rd))
  | Stall :: rest => ([], NoError, Reader (pending rd) rest (eof_with_data rd))
  | Short k :: rest => deliver rd rest (k `min` cap)
  | [] => deliver rd [] cap
  end.

(** ** The registry and the network *)

Inductive call : Type :=
| BatchGetImage (repo : string) (id : ImageIdentifier)
| BatchCheckLayerAvailability (repo : string) (digests : list string)
| GetDownloadUrlForLayer (repo digest : string)
| InitiateLayerUpload (repo : string)
| HttpGet (url : string)
| UploadLayerPart (blob : list byte) (first last : Z) (repo uploadId : string)
| CompleteLayerUpload (repo uploadId : string) (digests : list string)
| PutImage (repo manifest : string) (tag : option string).

Inductive reply (A : Type) : Type :=
| Success (a : A)
| Failure (e : string).
Arguments Success {A} a.
Arguments Failure {A} e.

(** What the outside world answers.  Each answer may depend on the calls
    issued before it, so sessions can differ from one another. *)
Record world : Type := World {
  batchGetImage : list call -> string -> ImageIdentifier -> reply (list string);
  batchCheckLayerAvailability : list call -> string -> list string -> reply (list Layer);
  getDownloadUrlForLayer : list call -> string -> string -> reply string;
  initiateLayerUpload : list call -> string -> reply InitiateLayerUploadOutput;
  httpGet : list call -> string -> reply reader;
  uploadLayerPart : list call -> list byte -> Z -> Z -> string -> string -> reply unit;
  completeLayerUpload : list call -> string -> string -> list string -> reply unit;
  putImage : list call -> string -> string -> option string -> reply unit;
  unmarshal : string -> reply manifest
}.

(** ** Computations: a trace of calls and an outcome *)

Inductive outcome (A : Type) : Type :=
| Ok (a : A)
| Err (e : string)      (* a returned [error] *)
| Panic (msg : string)  (* a run-time panic *)
| Spin.                 (* the loop has not finished within the fuel *)
Arguments Ok {A} a.
Arguments Err {A} e.
Arguments Panic {A} msg.
Arguments Spin {A}.

Definition M (A : Type) : Type := list call -> list call * outcome A.

Definition ret {A} (a : A) : M A := fun t => (t, Ok a).
Definition fail {A} (o : outcome A) : M A := fun t => (t, o).

Definition bind {A B} (m : M A) (k : A -> M B) : M B :=
  fun t =>
    match m t with
    | (t', Ok a) => k a t'
    | (t', Err e) => (t', Err e)
    | (t', Panic msg) => (t', Panic msg)
    | (t', Spin) => (t', Spin)
    end.

Notation "'do' x <- m ; k" := (bind m (fun x => k))
  (at level 10, x name, m at level 100, k at level 200).
Notation "'do_' m ; k" := (bind m (fun _ => k))
  (at level 10, m at level 100, k at level 200).

(** Issue a call: log it and turn a failure into a returned error wrapped
    in [prefix], as [fmt.Errorf(prefix + "%w", err)] does. *)
Definition request {A} (c : call) (answer : list call -> reply A) (prefix : string) : M A :=
  fun t =>
    match answer t with
    | Success a => (t ++ [c], Ok a)
    | Failure e => (t ++ [c], Err (prefix +:+ e))
    end.

(** [fmt.Errorf(prefix + "%w", err)] around a computation's error. *)
Definition wrap {A} (prefix : string) (m : M A) : M A :=
  fun t =>
    match m t with
    | (t', Err e) => (t', Err (prefix +:+ e))
    | r => r
    end.

(** Signed 64-bit wrap-around, for [int64] arithmetic. *)
Definition wrap64 (z : Z) : Z := (z + 2 ^ 63) mod 2 ^ 64 - 2 ^ 63.

(** [copy(b[off:], data)] for data that fits: the slice keeps its length
    and whatever it held outside the written window. *)
Definition write_at (b : list byte) (off : nat) (data : list byte) : list byte :=
  take off b ++ data ++ drop (off + length data) b.

(** ** The program *)

(** The image identifier [getManifest] asks for: a reference of the form
    [xxx:hex] is taken for a digest, anything else for a tag. *)
Definition imageId (imageDigestOrTag : string) : ImageIdentifier :=
  let '(_, hex, didCut) := cut_colon imageDigestOrTag in
  if didCut && hexRe hex
  then {| ImageDigest := Some imageDigestOrTag; ImageTag := None |}
  else {| ImageDigest := None; ImageTag := Some imageDigestOrTag |}.

Section Program.

Variable w : world.

Definition getManifest (sourceRepo imageDigestOrTag : string)
  : M (string * list imageLayer) :=
  let id := imageId imageDigestOrTag in
  do images <- request (BatchGetImage sourceRepo id)
                 (fun t => batchGetImage w t sourceRepo id) "BatchGetImage: ";
  match images with
  | [imageManifest] =>
      match unmarshal w imageManifest with
      | Failure e => fail (Err ("Unmarshal ImageManifest: " +:+ e))
      | Success m =>
          let allLayers := Layers m ++ [Config m] in
          ret (imageManifest, allLayers)
      end
  | _ =>
      fail (Err ("BatchGetImage: Got " +:+ pretty (length images) +:+ " Images"))
  end.

(** The first loop of [checkLayerAvails]: the digests reported
    [AVAILABLE]. *)
Definition destHasLayer (avails : list Layer) : gmap string bool :=
  foldl (fun m la =>
           if String.eqb (LayerAvailability la) "AVAILABLE"
           then <[LayerDigest la := true]> m
           else m) ∅ avails.

(** A Go map lookup: the zero value for a missing key. *)
Definition has (m : gmap string bool) (k : string) : bool :=
  default false (m !! k).

(** The second loop: append every layer the map does not hold. *)
Definition unavailLayers (m : gmap string bool) (layers : list imageLayer)
  : list imageLayer :=
  foldl (fun acc l => if has m (Digest l) then acc else acc ++ [l]) [] layers.

Definition checkLayerAvails (destRepo : string) (layers : list imageLayer)
  : M (list imageLayer) :=
  let layerDigests := map Digest layers in
  do avails <- request (BatchCheckLayerAvailability destRepo layerDigests)
                 (fun t => batchCheckLayerAvailability w t destRepo layerDigests)
                 "BatchCheckLayerAvailability: ";
  ret (unavailLayers (destHasLayer avails) layers).

(** The inner loop of [copyLayer], labelled [downloadPart]: read into
    [b[partSize:]] until the buffer is full or the stream ends.  It
    yields the reader, the buffer, the bytes gathered and [lastPart]. *)
Fixpoint downloadPart (fuel : nat) (layerDigest : string) (partLen : nat)
    (body : reader) (b : list byte) (partSize : nat)
  : outcome (reader * list byte * nat * bool) :=
  match fuel with
  | O => Spin
  | S fuel' =>
      let '(data, err, body') := Read body (length b - partSize) in
      let n := length data in
      let b' := write_at b partSize data in
      match err with
      | OtherError e => Err ("Read(" +:+ layerDigest +:+ "): " +:+ e)
      | _ =>
          if (n =? 0)%nat then
            match err with
            | EOF => Ok (body', b', partSize, true)
            | _ => downloadPart fuel' layerDigest partLen body' b' partSize
            end
          else
            let partSize' := (partSize + n)%nat in
            if (partSize' =? partLen)%nat
            then Ok (body', b', partSize', false)
            else downloadPart fuel' layerDigest partLen body' b' partSize'
      end
  end.

(** The outer loop, [for !lastPart]: upload and hash one part per turn.
    It yields the accumulator after the last part. *)
Fixpoint uploadParts (fuel : nat) (destRepo layerDigest : string)
    (upload : InitiateLayerUploadOutput) (body : reader) (b : list byte)
    (partFirstByte : Z) (sha : Sha256.digest) : M Sha256.digest :=
  match fuel with
  | O => fail Spin
  | S fuel' =>
      match downloadPart (S fuel') layerDigest (Z.to_nat (PartSize upload)) body b 0 with
      | Err e => fail (Err e)
      | Panic msg => fail (Panic msg)
      | Spin => fail Spin
      | Ok (body', b', partSize, lastPart) =>
          if (partSize =? 0)%nat then
            if lastPart then ret sha else fail (Panic "internal logic error")
          else
            let partLastByte := wrap64 (partFirstByte + Z.of_nat partSize - 1) in
            do_ request
                  (UploadLayerPart (take partSize b') partFirstByte partLastByte
                     destRepo (UploadId upload))
                  (fun t => uploadLayerPart w t (take partSize b') partFirstByte
                              partLastByte destRepo (UploadId upload))
                  ("UploadLayerPart(" +:+ layerDigest +:+ ") (" +:+ pretty partFirstByte
                     +:+ "-" +:+ pretty partLastByte +:+ "): ");
            let sha' := Sha256.Write sha (take partSize b') in
            let partFirstByte' := wrap64 (partFirstByte + Z.of_nat partSize) in
            if lastPart then ret sha'
            else uploadParts fuel' destRepo layerDigest upload body' b' partFirstByte' sha'
      end
  end.

Definition copyLayer (fuel : nat) (sourceRepo destRepo layerDigest : string) : M unit :=
  do dlUrl <- request (GetDownloadUrlForLayer sourceRepo layerDigest)
                (fun t => getDownloadUrlForLayer w t sourceRepo layerDigest)
                ("GetDownloadUrlForLayer(" +:+ layerDigest +:+ "): ");
  do upload <- request (InitiateLayerUpload destRepo)
                 (fun t => initiateLayerUpload w t destRepo) "InitiateLayerUpload: ";
  do body <- request (HttpGet dlUrl) (fun t => httpGet w t dlUrl)
               ("http GET layer(" +:+ layerDigest +:+ "): ");
  if PartSize upload <? 0 then fail (Panic "makeslice: len out of range")
  else
    let b := replicate (Z.to_nat (PartSize upload)) x00 in
    do sha <- uploadParts fuel destRepo layerDigest upload body b 0 Sha256.New;
    let uploadDigest :=
      UploadId upload +:+ ":" +:+ pad0 64 (hex_of_bytes (Sha256.Sum sha)) in
    request (CompleteLayerUpload destRepo (UploadId upload) [uploadDigest])
      (fun t => completeLayerUpload w t destRepo (UploadId upload) [uploadDigest])
      ("CompleteLayerUpload(" +:+ layerDigest +:+ "): ").

Fixpoint copyLayers (fuel : nat) (sourceRepo destRepo : string)
    (layers : list imageLayer) : M unit :=
  match layers with
  | [] => ret tt
  | l :: rest =>
      do_ wrap "copyLayer: " (copyLayer fuel sourceRepo destRepo (Digest l));
      copyLayers fuel sourceRepo destRepo rest
  end.

Definition putManifest (destRepo newTag manifest : string) : M unit :=
  let tag := if String.eqb newTag "" then None else Some newTag in
  request (PutImage destRepo manifest tag)
    (fun t => putImage w t destRepo manifest tag) "PutImage: ".

(** How the process ends. *)
Inductive exit : Type :=
| Done                 (* [main] returns *)
| Usage                (* usage printed, [os.Exit(1)] *)
| Fatal (e : string)   (* [log.Fatal(err)] *)
| Crash (msg : string) (* a panic *)
| Hang.                (* still looping when the fuel ran out *)

Definition arg (args : list string) (i : nat) : string := nth i args EmptyString.

Definition run (fuel : nat) (args : list string) : M unit :=
  let sourceRepo := arg args 1 in
  let imageDigestOrTag := arg args 2 in
  let destRepo := arg args 3 in
  let newTag := if (length args =? 5)%nat then arg args 4 else EmptyString in
  do r <- getManifest sourceRepo imageDigestOrTag;
  let '(manifest, layers) := r in
  do neededLayers <- checkLayerAvails destRepo layers;
  do_ copyLayers fuel sourceRepo destRepo neededLayers;
  putManifest destRepo newTag manifest.

(** [main], started with [os.Args = args] and no call made yet. *)
Definition main (fuel : nat) (args : list string) : list call * exit :=
  if ((length args <? 4) || (5 <? length args))%nat then ([], Usage)
  else
    match run fuel args [] with
    | (t, Ok _) => (t, Done)
    | (t, Err e) => (t, Fatal e)
    | (t, Panic msg) => (t, Crash msg)
    | (t, Spin) => (t, Hang)
    end.

End Program.

(** ** Vocabulary for the statements *)

(** A blob cut into parts of [partLen] bytes, the last one possibly
    shorter; no part is empty. *)
Equations? chunks (partLen : nat) (blob : list byte) : list (list byte)
  by wf (length blob) lt :=
  chunks O _ := [];
  chunks (S p) [] := [];
  chunks (S p) (a :: l) := take (S p) (a :: l) :: chunks (S p) (drop (S p) (a :: l)).
Proof. rewrite length_drop. lia. Qed.

(** The part uploads of one session, with byte ranges computed by the
    program's [int64] arithmetic from the offset [first]. *)
Fixpoint part_calls (destRepo uploadId : string) (first : Z) (parts : list (list byte))
  : list call :=
  match parts with
  | [] => []
  | p :: rest =>
      UploadLayerPart p first (wrap64 (first + Z.of_nat (length p) - 1)) destRepo uploadId
        :: part_calls destRepo uploadId (wrap64 (first + Z.of_nat (length p))) rest
  end.

(** The same uploads with the ranges the specification describes:
    [[first, first + len - 1]], the next part starting where this ends. *)
Fixpoint ranged_calls (destRepo uploadId : string) (first : Z) (parts : list (list byte))
  : list call :=
  match parts with
  | [] => []
  | p :: rest =>
      UploadLayerPart p first (first + Z.of_nat (length p) - 1) destRepo uploadId
        :: ranged_calls destRepo uploadId (first + Z.of_nat (length p)) rest
  end.

(** The byte ranges of the part uploads found in a trace. *)
Definition ranges (t : list call) : list (Z * Z) :=
  flat_map (fun c => match c with
                     | UploadLayerPart _ first last _ _ => [(first, last)]
                     | _ => []
                     end) t.

(** The blobs of the part uploads found in a trace. *)
Definition uploaded (t : list call) : list (list byte) :=
  flat_map (fun c => match c with
                     | UploadLayerPart blob _ _ _ _ => [blob]
                     | _ => []
                     end) t.

(** Ranges that are non-empty, start at [first] and follow one another
    without gap or overlap. *)
Fixpoint contiguous (first : Z) (rs : list (Z * Z)) : Prop :=
  match rs with
  | [] => True
  | (a, b) :: rest => a = first /\ a <= b /\ contiguous (b + 1) rest
  end.

(** Every element but the last satisfies [P]. *)
Fixpoint all_but_last {A} (P : A -> Prop) (l : list A) : Prop :=
  match l with
  | [] => True
  | [_] => True
  | a :: rest => P a /\ all_but_last P rest
  end.

Definition is_put (c : call) : bool :=
  match c with PutImage _ _ _ => true | _ => false end.

(** The manifest publications found in a trace. *)
Definition put_calls (t : list call) : list call := List.filter is_put t.

(** A computation that publishes no manifest. *)
Definition publishes_nothing {A} (m : M A) : Prop :=
  forall t, put_calls (fst (m t)) = put_calls t.

Definition is_broken (ev : read_event) : bool :=
  match ev with Broken _ => true | _ => false end.

(** A stream whose reads never fail with anything but EOF. *)
Definition reliable (body : reader) : bool := forallb (fun ev => negb (is_broken ev)) (script body).

(** Reads that suffice to drain a reliable stream. *)
Definition reads (body : reader) : nat := (length (script body) + length (pending body) + 1)%nat.

(** The calls that open a transfer. *)
Definition opening (sourceRepo destRepo layerDigest url : string) : list call :=
  [GetDownloadUrlForLayer sourceRepo layerDigest; InitiateLayerUpload destRepo; HttpGet url].

(** The world, asked after the calls in [t], issues [url] for the blob,
    opens the session [upload] and serves the stream [body]. *)
Definition session (w : world) (t : list call) (sourceRepo destRepo layerDigest url : string)
    (upload : InitiateLayerUploadOutput) (body : reader) : Prop :=
  getDownloadUrlForLayer w t sourceRepo layerDigest = Success url
  /\ initiateLayerUpload w (t ++ [GetDownloadUrlForLayer sourceRepo layerDigest]) destRepo
     = Success upload
  /\ httpGet w (t ++ [GetDownloadUrlForLayer sourceRepo layerDigest;
                      InitiateLayerUpload destRepo]) url
     = Success body.

(** The registry accepts every part and the commit of a session. *)
Definition accepting (w : world) (destRepo uploadId : string) : Prop :=
  (forall t blob first last,
      uploadLayerPart w t blob first last destRepo uploadId = Success tt)
  /\ (forall t digests, completeLayerUpload w t destRepo uploadId digests = Success tt).

(** The completion token of an upload: ["<uploadId>:<hexdigest>"]. *)
Definition token (uploadId : string) (sum : list byte) : string :=
  uploadId +:+ ":" +:+ hex_of_bytes sum.

(** Whether a response reports the digest with status [AVAILABLE]. *)
Definition reported_available (avails : list Layer) (digest : string) : bool :=
  existsb (fun la => String.eqb (LayerDigest la) digest
                     && String.eqb (LayerAvailability la) "AVAILABLE") avails.

(** Lower-casing of the letters A-Z, to say when two digests differ in
    case only. *)
Definition lower_char (c : ascii) : ascii :=
  let n := nat_of_ascii c in
  if ((65 <=? n) && (n <=? 90))%nat then ascii_of_nat (n + 32) else c.

Fixpoint to_lower (s : string) : string :=
  match s with
  | EmptyString => EmptyString
  | String c r => String (lower_char c) (to_lower r)
  end.

(** The algorithm a content digest ["<algo>:<hex>"] declares. *)
Definition declared_algorithm (digest : string) : string :=
  let '(algo, _, _) := cut_colon digest in algo.

(** The algorithm of the accumulator [copyLayer] creates. *)
Definition accumulator_algorithm : string := "sha256".

(** ** A small world to run the program in *)

Module Demo.

Definition layer (digest : string) (size : Z) : imageLayer :=
  {| MediaType := "application/vnd.docker.image.rootfs.diff.tar.gzip";
     Size := size; Digest := digest |}.

Definition image : manifest :=
  {| Config := layer "sha256:ccc" 3;
     Layers := [layer "sha256:aaa" 10; layer "sha256:bbb" 7] |}.

Definition manifestText : string := "{manifest as served by the source}".

(** A registry that accepts everything, opens sessions with parts of
    [partLen] bytes, serves [body digest] for each blob and reports
    [avails] as present. *)
Definition registry (partLen : Z) (body : string -> reader) (avails : list Layer) : world :=
  {| batchGetImage := fun _ _ _ => Success [manifestText];
     batchCheckLayerAvailability := fun _ _ _ => Success avails;
     getDownloadUrlForLayer := fun _ _ digest => Success digest;
     initiateLayerUpload := fun t _ =>
       Success {| UploadId := "up" +:+ pretty (length t); PartSize := partLen |};
     httpGet := fun _ url => Success (body url);
     uploadLayerPart := fun _ _ _ _ _ _ => Success tt;
     completeLayerUpload := fun _ _ _ _ => Success tt;
     putImage := fun _ _ _ _ => Success tt;
     unmarshal := fun _ => Success image |}.

Definition text : list byte := bytes_of_string "0123456789".

(** The same ten bytes, delivered whole or one byte per read. *)
Definition whole : reader := Reader text [] false.
Definition bytewise : reader := Reader text (replicate 10 (Short 1)) true.
Definition broken : reader := Reader text [Short 4; Broken "connection reset"] false.

Definition bodies (digest : string) : reader :=
  if String.eqb digest "sha256:aaa" then whole
  else if String.eqb digest "sha256:bbb" then bytewise
  else Reader (bytes_of_string "cfg") [Stall; Short 2] false.

End Demo.

(** ** Vocabulary for the further properties *)

Definition is_download (c : call) : bool :=
  match c with GetDownloadUrlForLayer _ _ => true | _ => false end.

Definition is_commit (c : call) : bool :=
  match c with CompleteLayerUpload _ _ _ => true | _ => false end.

(** A part upload of the session [uploadId] at [destRepo]. *)
Definition part_call (destRepo uploadId : string) (c : call) : Prop :=
  match c with
  | UploadLayerPart _ _ _ repo id => repo = destRepo /\ id = uploadId
  | _ => False
  end.

(** The calls that may follow the request for the download URL in a
    transfer into [destRepo]. *)
Definition transfer_call (destRepo : string) (c : call) : Prop :=
  match c with
  | InitiateLayerUpload repo => repo = destRepo
  | HttpGet _ => True
  | UploadLayerPart _ _ _ repo _ => repo = destRepo
  | CompleteLayerUpload repo _ _ => repo = destRepo
  | _ => False
  end.

(** A computation that only appends calls satisfying [P] to the trace. *)
Definition emits {A} (P : call -> Prop) (m : M A) : Prop :=
  forall t, exists ext, fst (m t) = t ++ ext /\ Forall P ext.

(** The prefixes with which the functions called by [main] wrap their
    errors. *)
Definition operations : list string :=
  ["BatchGetImage: "; "Unmarshal ImageManifest: "; "BatchCheckLayerAvailability: ";
   "copyLayer: "; "PutImage: "]%string.

Definition no_colon (s : string) : bool :=
  all_chars (fun c => negb (Ascii.eqb c ":")) s.

(** A registry like [Demo.registry] that refuses every part upload. *)
Definition refusing (partLen : Z) (body : reader) : world :=
  {| batchGetImage := fun _ _ _ => Success [Demo.manifestText];
     batchCheckLayerAvailability := fun _ _ _ => Success [];
     getDownloadUrlForLayer := fun _ _ digest => Success digest;
     initiateLayerUpload := fun _ _ => Success {| UploadId := "up"; PartSize := partLen |};
     httpGet := fun _ _ => Success body;
     uploadLayerPart := fun _ _ _ _ _ _ => Failure "access denied";
     completeLayerUpload := fun _ _ _ _ => Success tt;
     putImage := fun _ _ _ _ => Success tt;
     unmarshal := fun _ => Success Demo.image |}.

(** A source that has no image, or several, for the reference. *)
Definition ambiguous (images : list string) : world :=
  {| batchGetImage := fun _ _ _ => Success images;
     batchCheckLayerAvailability := fun _ _ _ => Success [];
     getDownloadUrlForLayer := fun _ _ digest => Success digest;
     initiateLayerUpload := fun _ _ => Success {| UploadId := "up"; PartSize := 4 |};
     httpGet := fun _ _ => Success Demo.whole;
     uploadLayerPart := fun _ _ _ _ _ _ => Success tt;
     completeLayerUpload := fun _ _ _ _ => Success tt;
     putImage := fun _ _ _ _ => Success tt;
     unmarshal := fun _ => Success Demo.image |}.


(** * Facts *)

(** ** The hash accumulator *)

Section Sha256Facts.

Import Sha256.

Lemma absorb_short hs p : (length p < chunk)%nat -> absorb hs p = (hs, p).
Proof.
  intros Hp. simp absorb. destruct (decide (chunk <= length p)%nat); [lia | reflexivity].
Qed.

Lemma absorb_full hs p :
  (chunk <= length p)%nat ->
  absorb hs p = absorb (block hs (take chunk p)) (drop chunk p).
Proof.
  intros Hp. rewrite absorb_equation_1.
  destruct (decide (chunk <= length p)%nat); [reflexivity | lia].
Qed.

(** Absorbing a concatenation is absorbing the first piece and then the
    second behind what the first left in the buffer. *)
Lemma absorb_app hs p q :
  absorb hs (p ++ q) = absorb (fst (absorb hs p)) (snd (absorb hs p) ++ q).
Proof.
  remember (length p) as n eqn:Hn.
  revert hs p Hn. induction n as [n IH] using lt_wf_ind. intros hs p Hn.
  destruct (decide (chunk <= length p)%nat) as [Hfull | Hshort].
  - rewrite (absorb_full hs p Hfull).
    rewrite (absorb_full hs (p ++ q)) by (rewrite length_app; lia).
    rewrite take_app_le, drop_app_le by exact Hfull.
    apply (IH (length (drop chunk p))); [| reflexivity].
    rewrite length_drop. unfold chunk in *. lia.
  - rewrite (absorb_short hs p) by lia. reflexivity.
Qed.

Lemma Write_app d p q : Write (Write d p) q = Write d (p ++ q).
Proof.
  unfold Write. cbn [h x len]. rewrite app_assoc, <- absorb_app.
  f_equal. rewrite length_app, Nat2Z.inj_add, Zplus_mod_idemp_l. f_equal. lia.
Qed.

(** Writing the parts one after the other is writing their concatenation. *)
Lemma Write_parts d p parts :
  foldl Write (Write d p) parts = Write d (p ++ concat parts).
Proof.
  revert d p. induction parts as [| q parts IH]; intros d p; cbn [foldl concat].
  - by rewrite app_nil_r.
  - rewrite Write_app, IH. by rewrite app_assoc.
Qed.

Lemma Write_New_parts parts : foldl Write New parts = Write New (concat parts).
Proof.
  destruct parts as [| p parts]; [reflexivity |].
  cbn [foldl concat]. apply Write_parts.
Qed.

Lemma round_length v kw : length (round v kw) = length v.
Proof.
  unfold round.
  do 9 (destruct v as [| ? v]; [reflexivity |]); reflexivity.
Qed.

Lemma block_length hs blk : length (block hs blk) = length hs.
Proof.
  unfold block. rewrite length_zip_with.
  assert (Hfold : forall kws v, length (fold_left round kws v) = length v).
  { induction kws as [| kw kws IH]; intros v; cbn [fold_left]; [reflexivity |].
    by rewrite IH, round_length. }
  rewrite Hfold. lia.
Qed.

Lemma absorb_length hs p : length (fst (absorb hs p)) = length hs.
Proof.
  remember (length p) as n eqn:Hn.
  revert hs p Hn. induction n as [n IH] using lt_wf_ind. intros hs p Hn.
  destruct (decide (chunk <= length p)%nat) as [Hfull | Hshort].
  - rewrite (absorb_full hs p Hfull).
    rewrite (IH (length (drop chunk p))); [apply block_length | | reflexivity].
    rewrite length_drop. unfold chunk in *. lia.
  - by rewrite absorb_short by lia.
Qed.

Lemma be_bytes_length n v : length (be_bytes n v) = n.
Proof. unfold be_bytes. by rewrite length_map, length_rev, length_seq. Qed.

Lemma Sum_length d : length (Sum d) = (4 * length (h d))%nat.
Proof.
  unfold Sum. rewrite <- (absorb_length (h d) (x d ++ padding (len d))).
  induction (fst (absorb (h d) (x d ++ padding (len d)))) as [| v vs IH]; [reflexivity |].
  cbn [flat_map]. rewrite length_app, be_bytes_length, IH. cbn [length]. lia.
Qed.

Lemma Write_h_length d p : length (h (Write d p)) = length (h d).
Proof. unfold Write. cbn [h]. apply absorb_length. Qed.

Lemma Write_parts_h_length parts d : length (h (foldl Write d parts)) = length (h d).
Proof.
  revert d. induction parts as [| p parts IH]; intros d; cbn [foldl]; [reflexivity |].
  by rewrite IH, Write_h_length.
Qed.

(** A SHA-256 digest is 32 bytes, whatever was written. *)
Lemma Sum_parts_length parts : length (Sum (foldl Write New parts)) = 32%nat.
Proof. by rewrite Sum_length, Write_parts_h_length. Qed.

End Sha256Facts.

(** The model against the published test vectors of FIPS 180-4. *)
Example sha256_empty :
  hex_of_bytes (Sha256.Sum256 [])
  = "e3b0c44298fc1c149afbf4c8996fb92427ae41e4649b934ca495991b7852b855"%string.
Proof. vm_compute. reflexivity. Qed.

Example sha256_abc :
  hex_of_bytes (Sha256.Sum256 (bytes_of_string "abc"))
  = "ba7816bf8f01cfea414140de5dae2223b00361a396177a9cb410ff61f20015ad"%string.
Proof. vm_compute. reflexivity. Qed.

Example sha256_two_blocks :
  hex_of_bytes
    (Sha256.Sum256
       (bytes_of_string "abcdbcdecdefdefgefghfghighijhijkijkljklmklmnlmnomnopnopq"))
  = "248d6a61d20638b8e5c026930c3e6039a33ce45964ff2167f6ecedd419db06c1"%string.
Proof. vm_compute. reflexivity. Qed.

Lemma hex_of_bytes_length p : String.length (hex_of_bytes p) = (2 * length p)%nat.
Proof.
  induction p as [| b p IH]; [reflexivity |].
  cbn [hex_of_bytes String.length length]. rewrite IH. lia.
Qed.

Lemma pad0_id width s : (width <= String.length s)%nat -> pad0 width s = s.
Proof.
  intros Hw. unfold pad0. replace (width - String.length s)%nat with O by lia. reflexivity.
Qed.

(** The [%064x] of a SHA-256 digest is its plain hexadecimal text. *)
Lemma pad0_digest parts :
  pad0 64 (hex_of_bytes (Sha256.Sum (foldl Sha256.Write Sha256.New parts)))
  = hex_of_bytes (Sha256.Sum (foldl Sha256.Write Sha256.New parts)).
Proof.
  apply pad0_id. rewrite hex_of_bytes_length, Sum_parts_length. lia.
Qed.

(** ** Cutting a blob into parts *)

Lemma chunks_nil partLen : chunks partLen [] = [].
Proof. destruct partLen; by simp chunks. Qed.

Lemma chunks_step partLen blob :
  (0 < partLen)%nat -> blob <> [] ->
  chunks partLen blob = take partLen blob :: chunks partLen (drop partLen blob).
Proof.
  intros HP Hblob. destruct partLen as [| p]; [lia |].
  destruct blob as [| a l]; [done |]. by simp chunks.
Qed.

Lemma chunks_ind (partLen : nat) (Q : list byte -> Prop) :
  (0 < partLen)%nat ->
  Q [] ->
  (forall blob, blob <> [] -> Q (drop partLen blob) -> Q blob) ->
  forall blob, Q blob.
Proof.
  intros HP Hnil Hstep blob.
  remember (length blob) as n eqn:Hn. revert blob Hn.
  induction n as [n IH] using lt_wf_ind. intros blob Hn.
  destruct blob as [| a l]; [exact Hnil |].
  apply Hstep; [done |].
  apply (IH (length (drop partLen (a :: l)))); [| reflexivity].
  rewrite length_drop. subst n. cbn [length]. lia.
Qed.

Lemma concat_chunks partLen blob :
  (0 < partLen)%nat -> concat (chunks partLen blob) = blob.
Proof.
  intros HP. revert blob. apply (chunks_ind partLen); [exact HP | | intros blob Hne IH].
  - by rewrite chunks_nil.
  - rewrite chunks_step by done. cbn [concat]. rewrite IH. apply take_drop.
Qed.

Lemma chunks_bounds partLen blob :
  Forall (fun p => 0 < length p <= partLen)%nat (chunks partLen blob).
Proof.
  destruct (decide (0 < partLen)%nat) as [HP | HP].
  - revert blob. apply (chunks_ind partLen); [exact HP | | intros blob Hne IH].
    + rewrite chunks_nil. constructor.
    + rewrite chunks_step by done. constructor; [| exact IH].
      rewrite length_take. destruct blob; [done |]. cbn [length]. lia.
  - replace partLen with O by lia. simp chunks. constructor.
Qed.

Lemma chunks_all_but_last partLen blob :
  all_but_last (fun p => length p = partLen) (chunks partLen blob).
Proof.
  destruct (decide (0 < partLen)%nat) as [HP | HP].
  - revert blob. apply (chunks_ind partLen); [exact HP | | intros blob Hne IH].
    + by rewrite chunks_nil.
    + rewrite chunks_step by done.
      destruct (decide (drop partLen blob = [])) as [Hd | Hd].
      * rewrite Hd, chunks_nil. exact I.
      * rewrite (chunks_step partLen (drop partLen blob)) in * by done.
        cbn [all_but_last]. split; [| exact IH].
        rewrite length_take. apply Nat.min_l.
        destruct (decide (partLen <= length blob)%nat); [done |].
        rewrite drop_ge in Hd by lia. done.
  - replace partLen with O by lia. by simp chunks.
Qed.

(** A blob of exactly [k] full parts is cut into [k] parts. *)
Lemma chunks_exact partLen k blob :
  (0 < partLen)%nat -> length blob = (k * partLen)%nat ->
  length (chunks partLen blob) = k.
Proof.
  intros HP. revert blob. induction k as [| k IH]; intros blob Hlen.
  - destruct blob; [by rewrite chunks_nil | done].
  - rewrite chunks_step; [| done | destruct blob; [cbn in Hlen; lia | done]].
    cbn [length]. f_equal. apply IH. rewrite length_drop. lia.
Qed.

(** ** The reader *)

Lemma take_min {A} n (l : list A) : take n l = take (n `min` length l) l.
Proof.
  destruct (decide (n <= length l)%nat).
  - by rewrite Nat.min_l.
  - rewrite Nat.min_r by lia. by rewrite !take_ge by lia.
Qed.

Lemma drop_min {A} n (l : list A) : drop n l = drop (n `min` length l) l.
Proof.
  destruct (decide (n <= length l)%nat).
  - by rewrite Nat.min_l.
  - rewrite Nat.min_r by lia. by rewrite !drop_ge by lia.
Qed.

Lemma Read_data body cap data err body' :
  Read body cap = (data, err, body') ->
  (length data <= cap)%nat
  /\ data = take (length data) (pending body)
  /\ pending body' = drop (length data) (pending body)
  /\ script body' = tail (script body)
  /\ eof_with_data body' = eof_with_data body.
Proof.
  unfold Read, deliver.
  destruct body as [pend scr flag]; cbn [pending script eof_with_data].
  destruct scr as [| [k | | e] rest], pend as [| a pend];
    intros [= <- <- <-]; cbn [pending script eof_with_data tail length];
    rewrite ?length_take, ?take_take; cbn [length];
    repeat split; try lia; try reflexivity;
    try (f_equal; lia);
    first [apply (take_min _ (a :: pend)) | apply (drop_min _ (a :: pend))].
Qed.

Lemma Read_EOF body cap data body' :
  Read body cap = (data, EOF, body') -> pending body' = [].
Proof.
  unfold Read, deliver.
  destruct body as [pend scr flag]; cbn [pending script eof_with_data].
  destruct scr as [| [k | | e] rest], pend as [| a pend];
    try (intros [= <- <-]; reflexivity); try (intros [=]; fail).
  - destruct (take cap (a :: pend)) as [| ? ?] eqn:Ht;
      destruct (drop cap (a :: pend)) as [| ? ?] eqn:Hd; try (intros [=]; fail).
    destruct flag; intros [= <- <-]; reflexivity.
  - destruct (take (k `min` cap) (a :: pend)) as [| ? ?] eqn:Ht;
      destruct (drop (k `min` cap) (a :: pend)) as [| ? ?] eqn:Hd; try (intros [=]; fail).
    destruct flag; intros [= <- <-]; reflexivity.
Qed.

(** A read that returns neither bytes nor an error used up a script event. *)
Lemma Read_stall body cap body' :
  (0 < cap)%nat ->
  Read body cap = ([], NoError, body') -> script body <> [].
Proof.
  unfold Read, deliver.
  destruct body as [pend scr flag]; cbn [pending script eof_with_data].
  destruct scr as [| ev rest]; [| done].
  destruct pend as [| a pend]; [intros _ [=] |].
  intros Hcap. destruct cap; [lia |]. cbn [take]. intros [=].
Qed.

Lemma Read_broken body cap data e body' :
  Read body cap = (data, OtherError e, body') ->
  exists rest, script body = Broken e :: rest.
Proof.
  unfold Read, deliver.
  destruct (script body) as [| [k | | e'] rest];
    try (destruct (pending body); intros [= _ Herr _]; revert Herr;
         repeat case_match; done).
  intros [= _ -> _]. by exists rest.
Qed.

Lemma Read_reliable body cap data err body' :
  reliable body = true ->
  Read body cap = (data, err, body') ->
  reliable body' = true /\ (forall e, err <> OtherError e).
Proof.
  unfold reliable. intros Hrel HRead.
  destruct (Read_data _ _ _ _ _ HRead) as (_ & _ & _ & Hscr & _).
  split.
  - rewrite Hscr. destruct (script body) as [| ev rest]; [done |].
    cbn [forallb tail] in *. by apply andb_prop in Hrel as [_ ?].
  - intros e ->. apply Read_broken in HRead as [rest Hrest].
    rewrite Hrest in Hrel. cbn in Hrel. done.
Qed.

(** ** The part buffer *)

Lemma write_at_nil b off : write_at b off [] = b.
Proof. unfold write_at. cbn [length app]. rewrite Nat.add_0_r. apply take_drop. Qed.

Lemma write_at_length b off data :
  (off + length data <= length b)%nat -> length (write_at b off data) = length b.
Proof.
  intros Hfit. unfold write_at. rewrite !length_app, length_take, length_drop. lia.
Qed.

Lemma take_write_at b off data :
  (off + length data <= length b)%nat ->
  take (off + length data) (write_at b off data) = take off b ++ data.
Proof.
  intros Hfit. unfold write_at. rewrite app_assoc.
  apply take_app_length'. rewrite length_app, length_take. lia.
Qed.

(** ** The inner loop: gathering one part *)

(** Whenever [downloadPart] hands back a part, it holds the next bytes of
    the stream: as many as fit the buffer or, failing that, all that were
    left; [lastPart] is set exactly when the stream ended first. *)
Lemma downloadPart_ok fuel digest :
  forall body b ps body' b' ps' last,
    (ps < length b)%nat ->
    downloadPart fuel digest (length b) body b ps = Ok (body', b', ps', last) ->
    let m := ((length b - ps) `min` length (pending body))%nat in
    ps' = (ps + m)%nat
    /\ length b' = length b
    /\ take ps' b' = take ps b ++ take m (pending body)
    /\ pending body' = drop m (pending body)
    /\ last = bool_decide (length (pending body) < length b - ps)%nat
    /\ (length (script body') <= length (script body))%nat
    /\ eof_with_data body' = eof_with_data body.
Proof.
  induction fuel as [| fuel IH]; intros body b ps body' b' ps' last Hps Hrun; [done |].
  cbv zeta. cbn [downloadPart] in Hrun.
  destruct (Read body (length b - ps)) as [[data err] body1] eqn:HRead.
  destruct (Read_data _ _ _ _ _ HRead) as (Hcap & Hdata & Hpend & Hscr & Hflag).
  assert (Hscr' : (length (script body1) <= length (script body))%nat)
    by (rewrite Hscr; destruct (script body); cbn [tail length]; lia).
  assert (Hdlen : (length data <= length (pending body))%nat).
  { pose proof (f_equal length Hdata) as Hl. rewrite length_take in Hl. lia. }
  assert (Hlen1 : length (write_at b ps data) = length b)
    by (apply write_at_length; lia).
  destruct (Nat.eqb_spec (length data) 0) as [Hzero | Hpos].
  - apply nil_length_inv in Hzero. subst data. cbn [length] in *.
    rewrite drop_0 in Hpend. rewrite write_at_nil in *.
    destruct err as [| | e]; [| | done].
    + apply IH in Hrun; [| exact Hps]. rewrite Hpend, Hflag in Hrun.
      destruct Hrun as (? & ? & ? & ? & ? & ? & ?). repeat split; try done. lia.
    + injection Hrun as <- <- <- <-.
      apply Read_EOF in HRead. rewrite HRead in Hpend. rewrite <- Hpend.
      cbn [length]. rewrite Nat.min_0_r, Nat.add_0_r, app_nil_r.
      repeat split; try done. symmetry. apply bool_decide_eq_true. lia.
  - assert (Herr : forall r : outcome (reader * list byte * nat * bool),
               match err with OtherError e => Err ("Read(" +:+ digest +:+ "): " +:+ e)
                            | _ => r end = Ok (body', b', ps', last) ->
               r = Ok (body', b', ps', last)) by (intros r; destruct err; done).
    apply Herr in Hrun. clear Herr.
    destruct (Nat.eqb_spec (ps + length data) (length b)) as [Hfull | Hmore].
    + injection Hrun as <- <- <- <-.
      replace ((length b - ps) `min` length (pending body))%nat with (length data) by lia.
      rewrite take_write_at by lia. rewrite <- Hdata.
      repeat split; try done. symmetry. apply bool_decide_eq_false. lia.
    + rewrite <- Hlen1 in Hrun. apply IH in Hrun; [| lia].
      rewrite Hlen1, Hpend, length_drop, Hflag in Hrun.
      destruct Hrun as (-> & Hb' & Htake & Hrest & Hlast & Hs & Hf).
      set (m1 := ((length b - (ps + length data)) `min`
                    (length (pending body) - length data))%nat) in *.
      replace ((length b - ps) `min` length (pending body))%nat
        with (length data + m1)%nat by lia.
      repeat split.
      * lia.
      * exact Hb'.
      * rewrite Htake, take_write_at by lia.
        rewrite <- app_assoc. f_equal.
        rewrite <- take_take_drop. by rewrite <- Hdata.
      * rewrite Hrest. apply drop_drop.
      * rewrite Hlast. apply bool_decide_ext. lia.
      * lia.
      * exact Hf.
Qed.

(** On a stream that does not break, the inner loop ends within as many
    reads as the script has events and the stream has bytes, plus one. *)
Lemma downloadPart_runs fuel digest :
  forall body b ps,
    (ps < length b)%nat ->
    reliable body = true ->
    (length (script body) + length (pending body) < fuel)%nat ->
    exists body' b' ps' last,
      downloadPart fuel digest (length b) body b ps = Ok (body', b', ps', last)
      /\ reliable body' = true.
Proof.
  induction fuel as [| fuel IH]; intros body b ps Hps Hrel Hfuel; [lia |].
  cbn [downloadPart].
  destruct (Read body (length b - ps)) as [[data err] body1] eqn:HRead.
  destruct (Read_data _ _ _ _ _ HRead) as (Hcap & Hdata & Hpend & Hscr & _).
  destruct (Read_reliable _ _ _ _ _ Hrel HRead) as [Hrel1 Herr].
  assert (Hlen1 : length (write_at b ps data) = length b)
    by (apply write_at_length; lia).
  assert (Hscr' : (length (script body1) <= length (script body))%nat)
    by (rewrite Hscr; destruct (script body); cbn [tail length]; lia).
  assert (Hdlen : (length data <= length (pending body))%nat).
  { pose proof (f_equal length Hdata) as Hl. rewrite length_take in Hl. lia. }
  apply (f_equal length) in Hpend. rewrite length_drop in Hpend.
  destruct (Nat.eqb_spec (length data) 0) as [Hzero | Hpos].
  - apply nil_length_inv in Hzero. subst data. rewrite write_at_nil.
    destruct err as [| | e];
      [| do 4 eexists; split; [reflexivity | exact Hrel1] | by destruct (Herr e)].
    apply IH; [exact Hps | exact Hrel1 |].
    apply Read_stall in HRead; [| lia].
    rewrite Hscr, Hpend. destruct (script body); [done |]. cbn [tail length] in *. lia.
  - assert (Hgo : forall r : outcome (reader * list byte * nat * bool),
               match err with OtherError e => Err ("Read(" +:+ digest +:+ "): " +:+ e)
                            | _ => r end = r)
      by (intros r; destruct err as [| | e]; [done | done | by destruct (Herr e)]).
    rewrite Hgo. clear Hgo.
    destruct (Nat.eqb_spec (ps + length data) (length b)) as [Hfull | Hmore];
      [do 4 eexists; split; [reflexivity | exact Hrel1] |].
    rewrite <- Hlen1. apply IH; [lia | exact Hrel1 | lia].
Qed.

(** ** The outer loop: uploading and hashing the parts *)

Section Parts.

Variable w : world.
Variables destRepo layerDigest : string.
Variable upload : InitiateLayerUploadOutput.

(** The part uploads a run of the loop has issued, successful or not,
    are the leading parts of the stream's content, in order; a run that
    reaches the end of the stream has issued all of them and has hashed
    exactly their bytes. *)
Lemma uploadParts_trace fuel :
  forall body b first sha t t' o,
    (0 < length b)%nat ->
    Z.to_nat (PartSize upload) = length b ->
    uploadParts w fuel destRepo layerDigest upload body b first sha t = (t', o) ->
    exists parts,
      parts `prefix_of` chunks (length b) (pending body)
      /\ t' = t ++ part_calls destRepo (UploadId upload) first parts
      /\ match o with
         | Ok sha' => parts = chunks (length b) (pending body)
                      /\ sha' = foldl Sha256.Write sha parts
         | _ => True
         end.
Proof.
  induction fuel as [| fuel IH]; intros body b first sha t t' o Hb HP Hrun.
  { injection Hrun as <- <-. exists []. rewrite app_nil_r.
    split; [apply prefix_nil | done]. }
  cbn [uploadParts] in Hrun. rewrite HP in Hrun.
  destruct (downloadPart (S fuel) layerDigest (length b) body b 0)
    as [[[[body' b'] ps] last] | e | msg |] eqn:Hdl;
    try (injection Hrun as <- <-; exists []; rewrite app_nil_r;
         split; [apply prefix_nil | done]).
  apply downloadPart_ok in Hdl; [| exact Hb].
  rewrite Nat.sub_0_r, Nat.add_0_l, take_0 in Hdl. cbn [app] in Hdl.
  destruct Hdl as (Hps & Hb' & Htake & Hrest & Hlast & _ & _).
  destruct (Nat.eqb_spec ps 0) as [Hzero | Hpos].
  - assert (Hnil : pending body = []) by (apply nil_length_inv; lia).
    rewrite Hnil in *. cbn [length] in Hlast.
    rewrite bool_decide_eq_true_2 in Hlast by lia. subst last.
    injection Hrun as <- <-. exists []. rewrite app_nil_r, chunks_nil.
    split; [apply prefix_nil | done].
  - assert (Hne : pending body <> []) by (intros Hnil; rewrite Hnil in Hps; cbn in Hps; lia).
    assert (Hpart : take ps b' = take (length b) (pending body))
      by (rewrite Htake; symmetry; apply take_min).
    assert (Hplen : length (take ps b') = ps) by (rewrite length_take; lia).
    rewrite (chunks_step (length b) (pending body)) by done.
    unfold bind, request in Hrun.
    destruct (uploadLayerPart w t (take ps b') first _ destRepo (UploadId upload))
      as [[] | e].
    + destruct last.
      * injection Hrun as <- <-.
        symmetry in Hlast. apply bool_decide_eq_true in Hlast.
        rewrite (drop_ge (pending body)) by lia. rewrite chunks_nil.
        exists [take (length b) (pending body)].
        rewrite <- Hpart. cbn [part_calls foldl]. rewrite Hplen. done.
      * symmetry in Hlast. apply bool_decide_eq_false in Hlast.
        apply IH in Hrun; [| lia | lia].
        destruct Hrun as (parts & Hpre & -> & Ho).
        rewrite Hb', Hrest in *.
        replace ps with (length b) in * by lia.
        replace ((length b) `min` length (pending body))%nat with (length b) in * by lia.
        exists (take (length b) (pending body) :: parts).
        split; [by apply prefix_cons |].
        rewrite <- Hpart. cbn [part_calls foldl]. rewrite Hplen, <- app_assoc.
        split; [done |].
        destruct o as [sha' | | |]; try done.
        destruct Ho as [-> ->]. done.
    + injection Hrun as <- <-.
      exists [take (length b) (pending body)].
      rewrite <- Hpart. cbn [part_calls]. rewrite Hplen.
      split; [| done]. apply prefix_cons, prefix_nil.
Qed.

(** When the stream does not break and the registry accepts every part,
    the loop reaches the end of the stream. *)
Lemma uploadParts_runs fuel :
  forall body b first sha t,
    (0 < length b)%nat ->
    Z.to_nat (PartSize upload) = length b ->
    reliable body = true ->
    (forall t blob first last,
        uploadLayerPart w t blob first last destRepo (UploadId upload) = Success tt) ->
    (reads body <= fuel)%nat ->
    exists t' sha',
      uploadParts w fuel destRepo layerDigest upload body b first sha t = (t', Ok sha').
Proof.
  unfold reads.
  induction fuel as [| fuel IH]; intros body b first sha t Hb HP Hrel Hacc Hfuel; [lia |].
  cbn [uploadParts]. rewrite HP.
  destruct (downloadPart_runs (S fuel) layerDigest body b 0 Hb Hrel)
    as (body' & b' & ps & last & Hdl & Hrel'); [lia |].
  rewrite Hdl. apply downloadPart_ok in Hdl; [| exact Hb].
  rewrite Nat.sub_0_r, Nat.add_0_l in Hdl.
  destruct Hdl as (Hps & Hb' & _ & Hrest & Hlast & Hscr & _).
  destruct (Nat.eqb_spec ps 0) as [Hzero | Hpos].
  - rewrite Hlast, bool_decide_eq_true_2 by lia. unfold ret. eauto.
  - unfold bind, request. rewrite Hacc.
    destruct last; [unfold ret; eauto |].
    apply IH; [lia | lia | exact Hrel' | exact Hacc |].
    rewrite Hrest, length_drop. lia.
Qed.

End Parts.

(** ** One blob's transfer *)

Lemma prefix_concat_length (parts all : list (list byte)) :
  parts `prefix_of` all -> (length (concat parts) <= length (concat all))%nat.
Proof. intros [k ->]. rewrite concat_app, length_app. lia. Qed.

Lemma all_but_last_prefix {A} (P : A -> Prop) (l k : list A) :
  all_but_last P (l ++ k) -> all_but_last P l.
Proof.
  induction l as [| a l IH]; [done |]. intros H.
  destruct l as [| a' l]; [done |].
  cbn [app all_but_last] in *. destruct H as [Ha H]. split; [exact Ha | by apply IH].
Qed.

Lemma wrap64_id z : - 2 ^ 63 <= z < 2 ^ 63 -> wrap64 z = z.
Proof. intros Hz. unfold wrap64. rewrite Z.mod_small; lia. Qed.

(** While the offsets stay in the [int64] range the program's ranges are
    the ones the specification describes. *)
Lemma part_calls_ranged destRepo uploadId parts :
  forall first,
    0 <= first ->
    first + Z.of_nat (length (concat parts)) < 2 ^ 63 ->
    part_calls destRepo uploadId first parts = ranged_calls destRepo uploadId first parts.
Proof.
  induction parts as [| p parts IH]; intros first Hfirst Hsize; [done |].
  cbn [concat] in Hsize. rewrite length_app, Nat2Z.inj_add in Hsize.
  cbn [part_calls ranged_calls].
  rewrite !wrap64_id by lia. f_equal. apply IH; lia.
Qed.

Lemma ranged_calls_contiguous destRepo uploadId parts :
  forall first,
    Forall (fun p => 0 < length p)%nat parts ->
    contiguous first (ranges (ranged_calls destRepo uploadId first parts)).
Proof.
  induction parts as [| p parts IH]; intros first Hne; [done |].
  inversion Hne as [| ? ? Hp Hrest]; subst.
  cbn [ranged_calls ranges flat_map app contiguous].
  repeat split; [lia |].
  replace (first + Z.of_nat (length p) - 1 + 1) with (first + Z.of_nat (length p)) by lia.
  by apply IH.
Qed.

Lemma uploaded_part_calls destRepo uploadId parts :
  forall first, uploaded (part_calls destRepo uploadId first parts) = parts.
Proof.
  induction parts as [| p parts IH]; intros first; [done |].
  cbn [part_calls uploaded flat_map app]. f_equal. apply IH.
Qed.

Lemma uploaded_app t1 t2 : uploaded (t1 ++ t2) = uploaded t1 ++ uploaded t2.
Proof. unfold uploaded. apply flat_map_app. Qed.

Section Transfer.

Variable w : world.
Variables sourceRepo destRepo layerDigest url : string.
Variable upload : InitiateLayerUploadOutput.
Variable body : reader.
Variable t : list call.

Hypothesis Hsession : session w t sourceRepo destRepo layerDigest url upload body.

Local Abbreviation partLen := (Z.to_nat (PartSize upload)).
Local Abbreviation b := (replicate partLen x00).
Local Abbreviation t0 := (t ++ opening sourceRepo destRepo layerDigest url).

(** [copyLayer] is the opening calls, the part loop and the commit. *)
Lemma copyLayer_unfold fuel :
  0 <= PartSize upload ->
  copyLayer w fuel sourceRepo destRepo layerDigest t
  = match uploadParts w fuel destRepo layerDigest upload body b 0 Sha256.New t0 with
    | (t', Ok sha) =>
        let uploadDigest :=
          UploadId upload +:+ ":" +:+ pad0 64 (hex_of_bytes (Sha256.Sum sha)) in
        request (CompleteLayerUpload destRepo (UploadId upload) [uploadDigest])
          (fun t => completeLayerUpload w t destRepo (UploadId upload) [uploadDigest])
          ("CompleteLayerUpload(" +:+ layerDigest +:+ "): ") t'
    | (t', Err e) => (t', Err e)
    | (t', Panic msg) => (t', Panic msg)
    | (t', Spin) => (t', Spin)
    end.
Proof.
  intros HpartSize. destruct Hsession as (Hurl & Hinit & Hget).
  unfold copyLayer, bind at 1, request at 1. rewrite Hurl.
  unfold bind at 1, request at 1. rewrite Hinit.
  unfold bind at 1, request at 1. rewrite <- app_assoc. cbn [app]. rewrite Hget.
  destruct (Z.ltb_spec (PartSize upload) 0) as [Hneg | _]; [lia |].
  unfold bind, opening.
  rewrite <- !app_assoc. cbn [app]. reflexivity.
Qed.

(** Whatever the world answers and however long the run lasts, the
    transfer issues the leading parts of the blob in order and, if it
    commits, commits the hash of exactly those parts. *)
Lemma copyLayer_trace fuel :
  0 < PartSize upload ->
  exists parts rest o,
    copyLayer w fuel sourceRepo destRepo layerDigest t
    = (t0 ++ part_calls destRepo (UploadId upload) 0 parts ++ rest, o)
    /\ parts `prefix_of` chunks partLen (pending body)
    /\ (rest = [] /\ o <> Ok tt
        \/ rest = [CompleteLayerUpload destRepo (UploadId upload)
                     [token (UploadId upload)
                        (Sha256.Sum (foldl Sha256.Write Sha256.New parts))]]
           /\ parts = chunks partLen (pending body)).
Proof.
  intros HpartSize. rewrite copyLayer_unfold by lia.
  destruct (uploadParts w fuel destRepo layerDigest upload body b 0 Sha256.New t0)
    as [t' o] eqn:Hrun.
  assert (Hb : length b = partLen) by apply length_replicate.
  apply uploadParts_trace in Hrun; [| lia | by rewrite Hb].
  rewrite Hb in Hrun. destruct Hrun as (parts & Hpre & -> & Ho).
  exists parts.
  destruct o as [sha | e | msg |].
  - destruct Ho as [Hall ->]. cbv zeta. rewrite pad0_digest. unfold request.
    destruct (completeLayerUpload w _ destRepo (UploadId upload) _) as [[] | e];
      eexists _, _; (split; [rewrite <- app_assoc; reflexivity |]);
      (split; [exact Hpre | right; done]).
  - exists [], (Err e). rewrite app_nil_r. split; [done | split; [exact Hpre | by left]].
  - exists [], (Panic msg). rewrite app_nil_r. split; [done | split; [exact Hpre | by left]].
  - exists [], Spin. rewrite app_nil_r. split; [done | split; [exact Hpre | by left]].
Qed.

(** On a stream that does not break, with a registry that accepts the
    parts and the commit, the transfer succeeds and its calls are
    determined by the blob and the part size alone. *)
Lemma copyLayer_success fuel :
  0 < PartSize upload ->
  reliable body = true ->
  accepting w destRepo (UploadId upload) ->
  (reads body <= fuel)%nat ->
  copyLayer w fuel sourceRepo destRepo layerDigest t
  = (t0 ++ part_calls destRepo (UploadId upload) 0 (chunks partLen (pending body))
        ++ [CompleteLayerUpload destRepo (UploadId upload)
              [token (UploadId upload) (Sha256.Sum256 (pending body))]],
     Ok tt).
Proof.
  intros HpartSize Hrel [Hparts Hcommit] Hfuel.
  rewrite copyLayer_unfold by lia.
  assert (Hb : length b = partLen) by apply length_replicate.
  destruct (uploadParts_runs w destRepo layerDigest upload fuel body b 0 Sha256.New t0)
    as (t' & sha & Hrun); [lia | by rewrite Hb | exact Hrel | exact Hparts | exact Hfuel |].
  rewrite Hrun.
  apply uploadParts_trace in Hrun; [| lia | by rewrite Hb].
  rewrite Hb in Hrun. destruct Hrun as (parts & _ & -> & -> & ->).
  cbv zeta. rewrite pad0_digest. unfold request. rewrite Hcommit.
  rewrite Write_New_parts, concat_chunks by lia.
  rewrite <- app_assoc. reflexivity.
Qed.

End Transfer.

(** ** A stream without content *)

Lemma downloadPart_empty fuel digest partLen :
  forall body b ps,
    pending body = [] ->
    reliable body = true ->
    (length (script body) < fuel)%nat ->
    exists body', downloadPart fuel digest partLen body b ps = Ok (body', b, ps, true).
Proof.
  induction fuel as [| fuel IH]; intros [pend scr flag] b ps Hpend Hrel Hfuel; [lia |].
  cbn [pending script] in *. subst pend.
  cbn [downloadPart]. unfold Read, deliver, reliable in *. cbn [pending script eof_with_data] in *.
  destruct scr as [| [k | | e] rest]; cbn [length Nat.eqb]; rewrite ?write_at_nil.
  - eauto.
  - eauto.
  - apply IH; [done | | cbn [length] in Hfuel; cbn [script]; lia].
    unfold reliable. cbn [script forallb] in *. by apply andb_prop in Hrel as [_ ?].
  - cbn in Hrel. done.
Qed.

Lemma uploadParts_empty w fuel destRepo layerDigest upload body b first sha t :
  pending body = [] ->
  reliable body = true ->
  (length (script body) < fuel)%nat ->
  uploadParts w fuel destRepo layerDigest upload body b first sha t = (t, Ok sha).
Proof.
  intros Hpend Hrel Hfuel. destruct fuel as [| fuel]; [lia |].
  cbn [uploadParts].
  destruct (downloadPart_empty (S fuel) layerDigest (Z.to_nat (PartSize upload))
              body b 0 Hpend Hrel Hfuel) as [body' ->].
  reflexivity.
Qed.

(** ** Who publishes *)

Lemma put_calls_app t1 t2 : put_calls (t1 ++ t2) = put_calls t1 ++ put_calls t2.
Proof. unfold put_calls. apply List.filter_app. Qed.

Lemma ret_publishes_nothing {A} (a : A) : publishes_nothing (ret a).
Proof. by intros t. Qed.

Lemma fail_publishes_nothing {A} (o : outcome A) : publishes_nothing (fail o).
Proof. by intros t. Qed.

Lemma request_publishes_nothing {A} c (answer : list call -> reply A) prefix :
  is_put c = false -> publishes_nothing (request c answer prefix).
Proof.
  intros Hc t. unfold request.
  destruct (answer t); cbn [fst]; rewrite put_calls_app; cbn; rewrite Hc; apply app_nil_r.
Qed.

Lemma bind_publishes_nothing {A B} (m : M A) (k : A -> M B) :
  publishes_nothing m -> (forall a, publishes_nothing (k a)) -> publishes_nothing (bind m k).
Proof.
  intros Hm Hk t. unfold bind. specialize (Hm t).
  destruct (m t) as [t' [a | e | msg |]]; cbn [fst] in *; [| done..].
  by rewrite Hk.
Qed.

Lemma wrap_publishes_nothing {A} prefix (m : M A) :
  publishes_nothing m -> publishes_nothing (wrap prefix m).
Proof.
  intros Hm t. unfold wrap. specialize (Hm t).
  by destruct (m t) as [t' [a | e | msg |]].
Qed.

Lemma uploadParts_publishes_nothing w fuel destRepo layerDigest upload :
  forall body b first sha,
    publishes_nothing (uploadParts w fuel destRepo layerDigest upload body b first sha).
Proof.
  induction fuel as [| fuel IH]; intros body b first sha; [apply fail_publishes_nothing |].
  cbn [uploadParts].
  destruct (downloadPart _ _ _ _ _ _) as [[[[body' b'] ps] last] | e | msg |];
    try apply fail_publishes_nothing.
  destruct (ps =? 0)%nat.
  - destruct last; [apply ret_publishes_nothing | apply fail_publishes_nothing].
  - apply bind_publishes_nothing; [by apply request_publishes_nothing |].
    intros _. destruct last; [apply ret_publishes_nothing | apply IH].
Qed.

Lemma copyLayer_publishes_nothing w fuel sourceRepo destRepo layerDigest :
  publishes_nothing (copyLayer w fuel sourceRepo destRepo layerDigest).
Proof.
  unfold copyLayer.
  apply bind_publishes_nothing; [by apply request_publishes_nothing | intros dlUrl].
  apply bind_publishes_nothing; [by apply request_publishes_nothing | intros upload].
  apply bind_publishes_nothing; [by apply request_publishes_nothing | intros body].
  destruct (PartSize upload <? 0); [apply fail_publishes_nothing |].
  apply bind_publishes_nothing; [apply uploadParts_publishes_nothing | intros sha].
  by apply request_publishes_nothing.
Qed.

Lemma copyLayers_publishes_nothing w fuel sourceRepo destRepo layers :
  publishes_nothing (copyLayers w fuel sourceRepo destRepo layers).
Proof.
  induction layers as [| l layers IH]; [apply ret_publishes_nothing |].
  cbn [copyLayers]. apply bind_publishes_nothing; [| intros _; exact IH].
  apply wrap_publishes_nothing, copyLayer_publishes_nothing.
Qed.

Lemma getManifest_publishes_nothing w sourceRepo imageDigestOrTag :
  publishes_nothing (getManifest w sourceRepo imageDigestOrTag).
Proof.
  unfold getManifest.
  apply bind_publishes_nothing; [by apply request_publishes_nothing | intros images].
  destruct images as [| img [| ? ?]]; try apply fail_publishes_nothing.
  destruct (unmarshal w img); [apply ret_publishes_nothing | apply fail_publishes_nothing].
Qed.

Lemma checkLayerAvails_publishes_nothing w destRepo layers :
  publishes_nothing (checkLayerAvails w destRepo layers).
Proof.
  unfold checkLayerAvails.
  apply bind_publishes_nothing; [by apply request_publishes_nothing | intros avails].
  apply ret_publishes_nothing.
Qed.

(** ** The sequence of transfers *)

(** The loop of [copyLayers] stops at the first transfer that does not
    succeed, with the trace as that transfer left it. *)
Lemma copyLayers_stops w fuel sourceRepo destRepo pre l post t0 t1 t2 e :
  copyLayers w fuel sourceRepo destRepo pre t0 = (t1, Ok tt) ->
  copyLayer w fuel sourceRepo destRepo (Digest l) t1 = (t2, Err e) ->
  copyLayers w fuel sourceRepo destRepo (pre ++ l :: post) t0
  = (t2, Err ("copyLayer: " +:+ e)).
Proof.
  revert t0. induction pre as [| l0 pre IH]; intros t0 Hpre Hfail.
  - injection Hpre as <-. cbn [app copyLayers]. unfold bind, wrap. by rewrite Hfail.
  - cbn [app copyLayers] in *. unfold bind in *.
    destruct (wrap "copyLayer: " (copyLayer w fuel sourceRepo destRepo (Digest l0)) t0)
      as [t' [[] | e' | msg |]]; try done.
    by apply IH.
Qed.

(** ** Availability *)

Lemma has_destHasLayer avails digest :
  has (destHasLayer avails) digest = reported_available avails digest.
Proof.
  unfold destHasLayer, has.
  assert (Hgen : forall m : gmap string bool,
             default false (foldl (fun m la =>
                 if String.eqb (LayerAvailability la) "AVAILABLE"
                 then <[LayerDigest la := true]> m else m) m avails !! digest)
             = default false (m !! digest) || reported_available avails digest).
  { induction avails as [| la avails IH]; intros m; cbn [foldl reported_available existsb].
    - by rewrite orb_false_r.
    - rewrite IH.
      destruct (String.eqb_spec (LayerAvailability la) "AVAILABLE") as [Hav | Hav];
        destruct (String.eqb_spec (LayerDigest la) digest) as [Hd | Hd];
        cbn [andb orb]; try done.
      + subst digest. rewrite lookup_insert_eq. cbn. by rewrite orb_true_r.
      + by rewrite lookup_insert_ne. }
  rewrite Hgen, lookup_empty. reflexivity.
Qed.

Lemma unavailLayers_filter m layers :
  unavailLayers m layers = List.filter (fun l => negb (has m (Digest l))) layers.
Proof.
  unfold unavailLayers.
  assert (Hgen : forall acc,
             foldl (fun acc l => if has m (Digest l) then acc else acc ++ [l]) acc layers
             = acc ++ List.filter (fun l => negb (has m (Digest l))) layers).
  { induction layers as [| l layers IH]; intros acc; cbn [foldl List.filter].
    - by rewrite app_nil_r.
    - rewrite IH. destruct (has m (Digest l)); cbn [negb]; [done |].
      by rewrite <- app_assoc. }
  apply Hgen.
Qed.

Lemma chunks_exact_full partLen k blob :
  (0 < partLen)%nat -> length blob = (k * partLen)%nat ->
  Forall (fun p => length p = partLen) (chunks partLen blob).
Proof.
  intros HP. revert blob. induction k as [| k IH]; intros blob Hlen.
  - destruct blob; [rewrite chunks_nil; constructor | done].
  - rewrite chunks_step; [| done | destruct blob; [cbn in Hlen; lia | done]].
    constructor; [rewrite length_take; lia |].
    apply IH. rewrite length_drop. lia.
Qed.

(** The loop's whole result on a stream that does not break, for a
    registry that accepts the parts: it mentions the content and the part
    size, not the way the reads were cut. *)
Lemma uploadParts_success w destRepo layerDigest upload fuel body b first sha t :
  (0 < length b)%nat ->
  Z.to_nat (PartSize upload) = length b ->
  reliable body = true ->
  (forall t blob first last,
      uploadLayerPart w t blob first last destRepo (UploadId upload) = Success tt) ->
  (reads body <= fuel)%nat ->
  uploadParts w fuel destRepo layerDigest upload body b first sha t
  = (t ++ part_calls destRepo (UploadId upload) first (chunks (length b) (pending body)),
     Ok (foldl Sha256.Write sha (chunks (length b) (pending body)))).
Proof.
  intros Hb HP Hrel Hacc Hfuel.
  destruct (uploadParts_runs w destRepo layerDigest upload fuel body b first sha t
              Hb HP Hrel Hacc Hfuel) as (t' & sha' & Hrun).
  rewrite Hrun. apply uploadParts_trace in Hrun; [| exact Hb | exact HP].
  destruct Hrun as (parts & _ & -> & -> & ->). reflexivity.
Qed.

(** * The claims *)

(** C1. Digest determinism and short-read robustness.  For every blob, every
    positive part size and every way the source stream cuts its reads
    (short reads, empty reads, EOF with or after the last bytes), a transfer
    that the registry accepts uploads the blob's parts in order and commits
    the hash of the whole blob computed in one pass; hashing the uploaded
    parts one by one gives that same hash, and the part loop's result is the
    same for every other fragmentation of the same content. *)
Theorem digest_determinism w fuel sourceRepo destRepo layerDigest url upload body t :
  session w t sourceRepo destRepo layerDigest url upload body ->
  0 < PartSize upload ->
  reliable body = true ->
  accepting w destRepo (UploadId upload) ->
  (reads body <= fuel)%nat ->
  let blob := pending body in
  let partLen := Z.to_nat (PartSize upload) in
  let t0 := t ++ opening sourceRepo destRepo layerDigest url in
  exists ext,
    copyLayer w fuel sourceRepo destRepo layerDigest t = (t0 ++ ext, Ok tt)
    /\ uploaded ext = chunks partLen blob
    /\ last ext = Some (CompleteLayerUpload destRepo (UploadId upload)
                          [token (UploadId upload) (Sha256.Sum256 blob)])
    /\ Sha256.Sum (foldl Sha256.Write Sha256.New (uploaded ext)) = Sha256.Sum256 blob
    /\ (forall body2 fuel2,
           pending body2 = blob -> reliable body2 = true -> (reads body2 <= fuel2)%nat ->
           uploadParts w fuel2 destRepo layerDigest upload body2
             (replicate partLen x00) 0 Sha256.New t0
           = uploadParts w fuel destRepo layerDigest upload body
               (replicate partLen x00) 0 Sha256.New t0).
Proof.
  intros Hsession HP Hrel Hacc Hfuel blob partLen t0.
  eexists. split; [by apply copyLayer_success |].
  assert (Hup : uploaded
                  (part_calls destRepo (UploadId upload) 0 (chunks partLen blob)
                   ++ [CompleteLayerUpload destRepo (UploadId upload)
                         [token (UploadId upload) (Sha256.Sum256 blob)]])
                = chunks partLen blob).
  { rewrite uploaded_app, uploaded_part_calls. apply app_nil_r. }
  split; [exact Hup |]. split; [apply last_snoc |].
  split.
  - fold partLen blob. rewrite Hup.
    rewrite Write_New_parts, concat_chunks by lia. reflexivity.
  - intros body2 fuel2 Hsame Hrel2 Hfuel2.
    assert (Hb : length (replicate partLen x00) = partLen) by apply length_replicate.
    destruct Hacc as [Hparts _].
    rewrite !(uploadParts_success w destRepo layerDigest upload)
      by (try rewrite Hb; try done; lia).
    by rewrite Hsame.
Qed.

(** The ten bytes of the demonstration, served one byte per read with EOF
    on the last byte, in parts of four: three parts and the digest of the
    whole. *)
Lemma digest_determinism_witness :
  exists ext,
    copyLayer (Demo.registry 4 (fun _ => Demo.bytewise) []) 21 "src" "dst" "sha256:aaa" []
    = (opening "src" "dst" "sha256:aaa" "sha256:aaa" ++ ext, Ok tt)
    /\ uploaded ext = chunks 4 Demo.text.
Proof.
  destruct (digest_determinism (Demo.registry 4 (fun _ => Demo.bytewise) []) 21
              "src" "dst" "sha256:aaa" "sha256:aaa"
              {| UploadId := "up1"; PartSize := 4 |} Demo.bytewise [])
    as (ext & Hrun & Hparts & _).
  - repeat split; reflexivity.
  - reflexivity.
  - reflexivity.
  - split; intros; reflexivity.
  - vm_compute. lia.
  - exists ext. split; [exact Hrun | exact Hparts].
Defined.

(** C2. No spurious empty part.  A blob of exactly [k] full parts is
    uploaded in exactly [k = length / partSize] parts, each of the full
    part size. *)
Theorem no_spurious_empty_part w fuel sourceRepo destRepo layerDigest url upload body t k :
  session w t sourceRepo destRepo layerDigest url upload body ->
  0 < PartSize upload ->
  reliable body = true ->
  accepting w destRepo (UploadId upload) ->
  (reads body <= fuel)%nat ->
  length (pending body) = (k * Z.to_nat (PartSize upload))%nat ->
  exists ext,
    copyLayer w fuel sourceRepo destRepo layerDigest t
    = ((t ++ opening sourceRepo destRepo layerDigest url) ++ ext, Ok tt)
    /\ length (uploaded ext) = (length (pending body) / Z.to_nat (PartSize upload))%nat
    /\ length (uploaded ext) = k
    /\ Forall (fun p => length p = Z.to_nat (PartSize upload)) (uploaded ext).
Proof.
  intros Hsession HP Hrel Hacc Hfuel Hlen.
  eexists. split; [by apply copyLayer_success |].
  rewrite uploaded_app, uploaded_part_calls. cbn [uploaded flat_map]. rewrite app_nil_r.
  assert (Hk : length (chunks (Z.to_nat (PartSize upload)) (pending body)) = k)
    by (apply chunks_exact; [lia | exact Hlen]).
  split; [| split; [exact Hk |]].
  - rewrite Hk, Hlen. symmetry. apply Nat.div_mul. lia.
  - apply (chunks_exact_full _ k); [lia | exact Hlen].
Qed.

(** Ten bytes in parts of five, one byte per read with EOF on the last
    byte: two parts. *)
Lemma no_spurious_empty_part_witness :
  exists ext,
    copyLayer (Demo.registry 5 (fun _ => Demo.bytewise) []) 21 "src" "dst" "sha256:aaa" []
    = (opening "src" "dst" "sha256:aaa" "sha256:aaa" ++ ext, Ok tt)
    /\ length (uploaded ext) = 2%nat.
Proof.
  destruct (no_spurious_empty_part (Demo.registry 5 (fun _ => Demo.bytewise) []) 21
              "src" "dst" "sha256:aaa" "sha256:aaa"
              {| UploadId := "up1"; PartSize := 5 |} Demo.bytewise [] 2)
    as (ext & Hrun & _ & Hcount & _).
  - repeat split; reflexivity.
  - reflexivity.
  - reflexivity.
  - split; intros; reflexivity.
  - vm_compute. lia.
  - reflexivity.
  - exists ext. split; [exact Hrun | exact Hcount].
Defined.

(** C3. Parts and byte ranges.  In every transfer of a blob that fits the
    [int64] offsets, whatever the registry answers and wherever the run
    stops, the part uploads issued are the leading parts of the blob: each
    but the last has exactly the session's part size, none is empty, each is
    tagged with the range [[first, first + len - 1]] where [first] starts
    at 0 and advances by the part's length, so the ranges are contiguous
    and strictly increasing; and a commit carries the hash of exactly the
    bytes uploaded. *)
Theorem part_ranges w fuel sourceRepo destRepo layerDigest url upload body t :
  session w t sourceRepo destRepo layerDigest url upload body ->
  0 < PartSize upload ->
  Z.of_nat (length (pending body)) < 2 ^ 63 ->
  exists parts rest o,
    copyLayer w fuel sourceRepo destRepo layerDigest t
    = ((t ++ opening sourceRepo destRepo layerDigest url)
         ++ ranged_calls destRepo (UploadId upload) 0 parts ++ rest, o)
    /\ parts `prefix_of` chunks (Z.to_nat (PartSize upload)) (pending body)
    /\ all_but_last (fun p => length p = Z.to_nat (PartSize upload)) parts
    /\ Forall (fun p => 0 < length p <= Z.to_nat (PartSize upload))%nat parts
    /\ contiguous 0 (ranges (ranged_calls destRepo (UploadId upload) 0 parts))
    /\ (rest = [] /\ o <> Ok tt
        \/ rest = [CompleteLayerUpload destRepo (UploadId upload)
                     [token (UploadId upload)
                        (Sha256.Sum (foldl Sha256.Write Sha256.New parts))]]).
Proof.
  intros Hsession HP Hsize.
  destruct (copyLayer_trace w sourceRepo destRepo layerDigest url upload body t
              Hsession fuel HP) as (parts & rest & o & Hrun & Hpre & Hrest).
  exists parts, rest, o.
  assert (Hbounds : Forall (fun p => 0 < length p <= Z.to_nat (PartSize upload))%nat parts).
  { destruct Hpre as [k Hk].
    pose proof (chunks_bounds (Z.to_nat (PartSize upload)) (pending body)) as Hall.
    rewrite Hk in Hall. by apply Forall_app in Hall as [? _]. }
  split; [| split; [exact Hpre | split; [| split; [exact Hbounds | split]]]].
  - rewrite Hrun. rewrite part_calls_ranged; [reflexivity | lia |].
    apply prefix_concat_length in Hpre. rewrite concat_chunks in Hpre by lia. lia.
  - destruct Hpre as [k Hk].
    pose proof (chunks_all_but_last (Z.to_nat (PartSize upload)) (pending body)) as Hall.
    rewrite Hk in Hall. by apply all_but_last_prefix in Hall.
  - apply ranged_calls_contiguous.
    eapply Forall_impl; [exact Hbounds |]. cbn. intros p Hp. lia.
  - destruct Hrest as [Hnone | [Hcommit _]]; [by left | by right].
Qed.

(** A stream that breaks after its first four bytes: one part has been
    uploaded, with range [0, 3], when the transfer fails. *)
Lemma part_ranges_witness :
  exists parts rest o,
    copyLayer (Demo.registry 4 (fun _ => Demo.broken) []) 21 "src" "dst" "sha256:aaa" []
    = (opening "src" "dst" "sha256:aaa" "sha256:aaa"
         ++ ranged_calls "dst" "up1" 0 parts ++ rest, o)
    /\ contiguous 0 (ranges (ranged_calls "dst" "up1" 0 parts)).
Proof.
  destruct (part_ranges (Demo.registry 4 (fun _ => Demo.broken) []) 21
              "src" "dst" "sha256:aaa" "sha256:aaa"
              {| UploadId := "up1"; PartSize := 4 |} Demo.broken [])
    as (parts & rest & o & Hrun & _ & _ & _ & Hranges & _).
  - repeat split; reflexivity.
  - reflexivity.
  - reflexivity.
  - exists parts, rest, o. split; [exact Hrun | exact Hranges].
Defined.

(** C4, as the program has it.  Whenever the part loop of a transfer reaches
    the end of the stream, the next call commits the session with the token
    made of the upload id, a colon and the 64 hexadecimal digits of the
    SHA-256 accumulator the loop maintained over the uploaded bytes, which
    is the SHA-256 of the blob; this holds for every layer digest, whatever
    algorithm it declares. *)
Theorem commit_token w fuel sourceRepo destRepo layerDigest url upload body t t1 sha :
  session w t sourceRepo destRepo layerDigest url upload body ->
  0 < PartSize upload ->
  uploadParts w fuel destRepo layerDigest upload body
    (replicate (Z.to_nat (PartSize upload)) x00) 0 Sha256.New
    (t ++ opening sourceRepo destRepo layerDigest url) = (t1, Ok sha) ->
  fst (copyLayer w fuel sourceRepo destRepo layerDigest t)
  = t1 ++ [CompleteLayerUpload destRepo (UploadId upload)
             [token (UploadId upload) (Sha256.Sum sha)]]
  /\ sha = foldl Sha256.Write Sha256.New
             (uploaded (drop (length (t ++ opening sourceRepo destRepo layerDigest url)) t1))
  /\ Sha256.Sum sha = Sha256.Sum256 (pending body)
  /\ String.length (hex_of_bytes (Sha256.Sum sha)) = 64%nat.
Proof.
  intros Hsession HP Hrun.
  rewrite (copyLayer_unfold w sourceRepo destRepo layerDigest url upload body t Hsession)
    by lia.
  rewrite Hrun.
  assert (Hb : length (replicate (Z.to_nat (PartSize upload)) x00)
               = Z.to_nat (PartSize upload)) by apply length_replicate.
  apply uploadParts_trace in Hrun; [| lia | by rewrite Hb].
  rewrite Hb in Hrun. destruct Hrun as (parts & _ & -> & Hall & ->).
  rewrite drop_app_length, uploaded_part_calls.
  cbv zeta. rewrite pad0_digest. unfold request.
  split; [by destruct (completeLayerUpload w _ _ _ _) |].
  split; [reflexivity |]. split.
  - rewrite Write_New_parts, Hall, concat_chunks by lia. reflexivity.
  - rewrite hex_of_bytes_length, Sum_parts_length. reflexivity.
Qed.

Lemma commit_token_witness :
  fst (copyLayer (Demo.registry 4 (fun _ => Demo.whole) []) 11 "src" "dst" "sha512:aaa" [])
  = fst (uploadParts (Demo.registry 4 (fun _ => Demo.whole) []) 11 "dst" "sha512:aaa"
           {| UploadId := "up1"; PartSize := 4 |} Demo.whole (replicate 4 x00) 0 Sha256.New
           (opening "src" "dst" "sha512:aaa" "sha512:aaa"))
    ++ [CompleteLayerUpload "dst" "up1"
          [token "up1" (Sha256.Sum (Sha256.Write Sha256.New Demo.text))]].
Proof.
  apply (commit_token (Demo.registry 4 (fun _ => Demo.whole) []) 11
           "src" "dst" "sha512:aaa" "sha512:aaa"
           {| UploadId := "up1"; PartSize := 4 |} Demo.whole []).
  - repeat split; reflexivity.
  - reflexivity.
  - vm_compute. reflexivity.
Defined.

(** C4, as stated, fails where it says that the accumulator's algorithm is
    the one the blob digest declares: for a digest that declares sha512 the
    program still hashes with SHA-256 and commits that 64-digit digest. *)
Lemma accumulator_ignores_declared_algorithm :
  let digest :=
    "sha512:cf83e1357eefb8bdf1542850d66d8007d620e4050b5715dc83f4a921d36ce9ce47d0d13c5d85f2b0ff8318d2877eec2f63b931bd47417a81a538327af927da3e"%string in
  declared_algorithm digest = "sha512"%string
  /\ declared_algorithm digest <> accumulator_algorithm
  /\ copyLayer (Demo.registry 4 (fun _ => Reader [] [] false) []) 1 "src" "dst" digest []
     = (opening "src" "dst" digest digest
          ++ [CompleteLayerUpload "dst" "up1"
                ["up1:e3b0c44298fc1c149afbf4c8996fb92427ae41e4649b934ca495991b7852b855"%string]],
        Ok tt).
Proof.
  cbv zeta. split; [reflexivity |]. split; [discriminate |]. vm_compute. reflexivity.
Qed.

(** C10. A blob without content.  When the stream ends before giving a
    single byte the transfer uploads no part and still commits the session,
    with the SHA-256 of the empty input. *)
Theorem empty_blob_commit w fuel sourceRepo destRepo layerDigest url upload body t :
  session w t sourceRepo destRepo layerDigest url upload body ->
  0 <= PartSize upload ->
  pending body = [] ->
  reliable body = true ->
  (forall t digests,
      completeLayerUpload w t destRepo (UploadId upload) digests = Success tt) ->
  (length (script body) < fuel)%nat ->
  copyLayer w fuel sourceRepo destRepo layerDigest t
  = ((t ++ opening sourceRepo destRepo layerDigest url)
       ++ [CompleteLayerUpload destRepo (UploadId upload)
             [(UploadId upload
               +:+ ":e3b0c44298fc1c149afbf4c8996fb92427ae41e4649b934ca495991b7852b855")%string]],
     Ok tt)
  /\ uploaded (fst (copyLayer w fuel sourceRepo destRepo layerDigest t)) = uploaded t
  /\ hex_of_bytes (Sha256.Sum256 []) 
     = "e3b0c44298fc1c149afbf4c8996fb92427ae41e4649b934ca495991b7852b855"%string.
Proof.
  intros Hsession HP Hempty Hrel Hcommit Hfuel.
  assert (Hrun : copyLayer w fuel sourceRepo destRepo layerDigest t
                 = ((t ++ opening sourceRepo destRepo layerDigest url)
                      ++ [CompleteLayerUpload destRepo (UploadId upload)
                            [(UploadId upload
                              +:+ ":e3b0c44298fc1c149afbf4c8996fb92427ae41e4649b934ca495991b7852b855")%string]],
                    Ok tt)).
  { rewrite (copyLayer_unfold w sourceRepo destRepo layerDigest url upload body t Hsession)
      by exact HP.
    rewrite uploadParts_empty by done.
    cbv zeta. unfold request. rewrite Hcommit. reflexivity. }
  split; [exact Hrun |]. split; [| reflexivity].
  rewrite Hrun. cbn [fst]. rewrite !uploaded_app. cbn. by rewrite !app_nil_r.
Qed.

(** A stream that stalls once and then reports EOF, with a part size of 4. *)
Lemma empty_blob_commit_witness :
  copyLayer (Demo.registry 4 (fun _ => Reader [] [Stall] false) []) 2
    "src" "dst" "sha256:e3b0" []
  = (opening "src" "dst" "sha256:e3b0" "sha256:e3b0"
       ++ [CompleteLayerUpload "dst" "up1"
             ["up1:e3b0c44298fc1c149afbf4c8996fb92427ae41e4649b934ca495991b7852b855"%string]],
     Ok tt).
Proof.
  apply (empty_blob_commit (Demo.registry 4 (fun _ => Reader [] [Stall] false) []) 2
           "src" "dst" "sha256:e3b0" "sha256:e3b0"
           {| UploadId := "up1"; PartSize := 4 |} (Reader [] [Stall] false) []).
  - repeat split; reflexivity.
  - cbn. lia.
  - reflexivity.
  - reflexivity.
  - intros; reflexivity.
  - cbn. lia.
Defined.

(** C5. Fail-fast.  When the transfer of a blob of the plan fails after the
    blobs before it went through, [copyLayers] returns that error at once,
    [main] ends in [log.Fatal] with it, and the trace of the whole run is
    the trace as the failed transfer left it: no later blob is touched and
    no manifest publication is in it. *)
Theorem fail_fast w fuel args manifest layers pre l post ta tb tc td e :
  (4 <= length args <= 5)%nat ->
  getManifest w (arg args 1) (arg args 2) [] = (ta, Ok (manifest, layers)) ->
  checkLayerAvails w (arg args 3) layers ta = (tb, Ok (pre ++ l :: post)) ->
  copyLayers w fuel (arg args 1) (arg args 3) pre tb = (tc, Ok tt) ->
  copyLayer w fuel (arg args 1) (arg args 3) (Digest l) tc = (td, Err e) ->
  copyLayers w fuel (arg args 1) (arg args 3) (pre ++ l :: post) tb
  = (td, Err ("copyLayer: " +:+ e))
  /\ main w fuel args = (td, Fatal ("copyLayer: " +:+ e))
  /\ put_calls td = [].
Proof.
  intros Hargs Hget Hcheck Hpre Hfail.
  pose proof (copyLayers_stops w fuel _ _ pre l post tb tc td e Hpre Hfail) as Hstop.
  split; [exact Hstop |]. split.
  - unfold main.
    replace ((length args <? 4)%nat || (5 <? length args)%nat) with false
      by (symmetry; apply orb_false_intro; [apply Nat.ltb_ge | apply Nat.ltb_ge]; lia).
    unfold run, bind. rewrite Hget, Hcheck, Hstop. reflexivity.
  - pose proof (copyLayer_publishes_nothing w fuel (arg args 1) (arg args 3) (Digest l) tc)
      as H4.
    pose proof (copyLayers_publishes_nothing w fuel (arg args 1) (arg args 3) pre tb) as H3.
    pose proof (checkLayerAvails_publishes_nothing w (arg args 3) layers ta) as H2.
    pose proof (getManifest_publishes_nothing w (arg args 1) (arg args 2) []) as H1.
    rewrite Hfail in H4. rewrite Hpre in H3. rewrite Hcheck in H2. rewrite Hget in H1.
    cbn [fst] in H1, H2, H3, H4. rewrite H4, H3, H2, H1. reflexivity.
Qed.

(** Three blobs to copy; the stream of the second breaks. *)
Lemma fail_fast_witness :
  let w := Demo.registry 4
             (fun url => if String.eqb url "sha256:bbb" then Demo.broken else Demo.whole) [] in
  let args := ["ecr-copy"; "src"; "app:v1"; "dst"]%string in
  snd (main w 21 args) = Fatal "copyLayer: Read(sha256:bbb): connection reset"
  /\ put_calls (fst (main w 21 args)) = [].
Proof.
  intros w args.
  destruct (fail_fast w 21 args Demo.manifestText
              (Layers Demo.image ++ [Config Demo.image])
              [Demo.layer "sha256:aaa" 10] (Demo.layer "sha256:bbb" 7)
              [Demo.layer "sha256:ccc" 3]
              (fst (getManifest w "src" "app:v1" []))
              (fst (checkLayerAvails w "dst" (Layers Demo.image ++ [Config Demo.image])
                      (fst (getManifest w "src" "app:v1" []))))
              (fst (copyLayers w 21 "src" "dst" [Demo.layer "sha256:aaa" 10]
                      (fst (checkLayerAvails w "dst"
                              (Layers Demo.image ++ [Config Demo.image])
                              (fst (getManifest w "src" "app:v1" []))))))
              (fst (copyLayer w 21 "src" "dst" "sha256:bbb"
                      (fst (copyLayers w 21 "src" "dst" [Demo.layer "sha256:aaa" 10]
                              (fst (checkLayerAvails w "dst"
                                      (Layers Demo.image ++ [Config Demo.image])
                                      (fst (getManifest w "src" "app:v1" []))))))))
              "Read(sha256:bbb): connection reset")
    as (_ & Hmain & Hputs).
  - cbn. lia.
  - vm_compute. reflexivity.
  - vm_compute. reflexivity.
  - vm_compute. reflexivity.
  - vm_compute. reflexivity.
  - rewrite Hmain. split; [reflexivity | exact Hputs].
Defined.

Lemma filter_sublist {A} (f : A -> bool) (l : list A) : sublist (List.filter f l) l.
Proof.
  induction l as [| a l IH]; cbn [List.filter]; [constructor |].
  destruct (f a); by constructor.
Qed.

Lemma reported_available_spec avails digest :
  reported_available avails digest = true
  <-> exists la, la ∈ avails /\ LayerDigest la = digest
                 /\ LayerAvailability la = "AVAILABLE"%string.
Proof.
  unfold reported_available. rewrite existsb_exists. split.
  - intros (la & Hin & Hla). apply andb_prop in Hla as [Hd Ha].
    apply String.eqb_eq in Hd, Ha. exists la. by rewrite list_elem_of_In.
  - intros (la & Hin & Hd & Ha). exists la. rewrite <- list_elem_of_In.
    split; [exact Hin |]. apply andb_true_intro. by rewrite !String.eqb_eq.
Qed.

(** C6. The availability checker.  For every list of blobs and every
    response, the checker returns the blobs whose digest the response does
    not report with status [AVAILABLE], any other status or no entry at all
    counting as not available, in the order of the input. *)
Theorem checkLayerAvails_unavailable w t destRepo layers avails :
  batchCheckLayerAvailability w t destRepo (map Digest layers) = Success avails ->
  exists needed,
    checkLayerAvails w destRepo layers t
    = (t ++ [BatchCheckLayerAvailability destRepo (map Digest layers)], Ok needed)
    /\ needed = List.filter (fun l => negb (reported_available avails (Digest l))) layers
    /\ (forall l, l ∈ needed
                  <-> l ∈ layers
                      /\ ~ exists la, la ∈ avails /\ LayerDigest la = Digest l
                                      /\ LayerAvailability la = "AVAILABLE"%string)
    /\ sublist needed layers.
Proof.
  intros Hresp. eexists. split; [| split; [reflexivity | split]].
  - unfold checkLayerAvails, bind, request, ret. rewrite Hresp.
    rewrite unavailLayers_filter. do 2 f_equal.
    apply List.filter_ext. intros l. by rewrite has_destHasLayer.
  - intros l. rewrite list_elem_of_In, List.filter_In, <- list_elem_of_In.
    rewrite negb_true_iff, <- reported_available_spec.
    destruct (reported_available avails (Digest l)); intuition congruence.
  - apply filter_sublist.
Qed.

(** The scenario of the specification: two layers and a config, the first
    layer already at the destination, the second reported with another
    status. *)
Lemma checkLayerAvails_unavailable_witness :
  exists needed,
    checkLayerAvails
      (Demo.registry 4 Demo.bodies
         [ {| LayerDigest := "sha256:aaa"; LayerAvailability := "AVAILABLE" |};
           {| LayerDigest := "sha256:bbb"; LayerAvailability := "UNAVAILABLE" |} ])
      "dst" (Layers Demo.image ++ [Config Demo.image]) []
    = ([BatchCheckLayerAvailability "dst" ["sha256:aaa"; "sha256:bbb"; "sha256:ccc"]%string],
       Ok needed)
    /\ needed = [Demo.layer "sha256:bbb" 7; Demo.layer "sha256:ccc" 3].
Proof.
  destruct (checkLayerAvails_unavailable
              (Demo.registry 4 Demo.bodies
                 [ {| LayerDigest := "sha256:aaa"; LayerAvailability := "AVAILABLE" |};
                   {| LayerDigest := "sha256:bbb"; LayerAvailability := "UNAVAILABLE" |} ])
              [] "dst" (Layers Demo.image ++ [Config Demo.image])
              [ {| LayerDigest := "sha256:aaa"; LayerAvailability := "AVAILABLE" |};
                {| LayerDigest := "sha256:bbb"; LayerAvailability := "UNAVAILABLE" |} ])
    as (needed & Hrun & Hneeded & _).
  - reflexivity.
  - exists needed. split; [exact Hrun | exact Hneeded].
Defined.

Lemma hex_of_bytes_lower p : all_chars hex_class (hex_of_bytes p) = true.
Proof.
  induction p as [| b p IH]; [reflexivity |].
  cbn [hex_of_bytes all_chars]. rewrite IH. by destruct b.
Qed.

(** C7, as the program has it.  Digests are compared as they are, by exact
    string equality: the destination counts as holding a digest exactly when
    the response has an [AVAILABLE] entry with that very string.  The one
    digest the program writes itself, in the upload token, is in lower-case
    hexadecimal digits. *)
Theorem digests_compared_exactly avails digest p :
  (has (destHasLayer avails) digest = true
   <-> exists la, la ∈ avails /\ LayerDigest la = digest
                  /\ LayerAvailability la = "AVAILABLE"%string)
  /\ all_chars hex_class (hex_of_bytes p) = true.
Proof.
  split; [| apply hex_of_bytes_lower].
  rewrite has_destHasLayer. apply reported_available_spec.
Qed.

(** C7, as stated, fails: a manifest digest in upper-case hexadecimal and an
    [AVAILABLE] entry for the same digest in lower case do not compare
    equal, so the layer stays in the transfer plan; and a reference whose
    hexadecimal part is in upper case is not taken for a digest. *)
Lemma digest_case_not_normalized :
  to_lower "sha256:ABCDEF" = to_lower "sha256:abcdef"
  /\ checkLayerAvails
       (Demo.registry 4 Demo.bodies
          [ {| LayerDigest := "sha256:abcdef"; LayerAvailability := "AVAILABLE" |} ])
       "dst" [Demo.layer "sha256:ABCDEF" 1] []
     = ([BatchCheckLayerAvailability "dst" ["sha256:ABCDEF"%string]],
        Ok [Demo.layer "sha256:ABCDEF" 1])
  /\ imageId "sha256:ABCDEF" = {| ImageDigest := None; ImageTag := Some "sha256:ABCDEF"%string |}
  /\ imageId "sha256:abcdef" = {| ImageDigest := Some "sha256:abcdef"%string; ImageTag := None |}.
Proof. repeat split; vm_compute; reflexivity. Qed.

(** C8. The blob list of a manifest.  For every manifest that parses, the
    resolver returns the layers in the manifest's order followed by the
    config blob as the last element. *)
Theorem getManifest_layers_then_config w t sourceRepo imageDigestOrTag imageManifest m :
  batchGetImage w t sourceRepo (imageId imageDigestOrTag) = Success [imageManifest] ->
  unmarshal w imageManifest = Success m ->
  exists allLayers,
    getManifest w sourceRepo imageDigestOrTag t
    = (t ++ [BatchGetImage sourceRepo (imageId imageDigestOrTag)],
       Ok (imageManifest, allLayers))
    /\ allLayers = Layers m ++ [Config m]
    /\ take (length (Layers m)) allLayers = Layers m
    /\ last allLayers = Some (Config m).
Proof.
  intros Himg Hparse. eexists. split; [| split; [reflexivity | split]].
  - unfold getManifest, bind, request. rewrite Himg, Hparse. reflexivity.
  - apply take_app_length.
  - apply last_snoc.
Qed.

Lemma getManifest_layers_then_config_witness :
  exists allLayers,
    getManifest (Demo.registry 4 Demo.bodies []) "src" "app:v1" []
    = ([BatchGetImage "src" (imageId "app:v1")], Ok (Demo.manifestText, allLayers))
    /\ allLayers = [Demo.layer "sha256:aaa" 10; Demo.layer "sha256:bbb" 7;
                    Demo.layer "sha256:ccc" 3].
Proof.
  destruct (getManifest_layers_then_config (Demo.registry 4 Demo.bodies []) []
              "src" "app:v1" Demo.manifestText Demo.image)
    as (allLayers & Hrun & Hall & _).
  - reflexivity.
  - reflexivity.
  - exists allLayers. split; [exact Hrun | exact Hall].
Defined.

(** The scenario of the specification, run from end to end: the first
    layer is at the destination already, the second layer and the config are
    copied in that order, and the manifest is published as it was served. *)
Example scenario :
  main (Demo.registry 4 Demo.bodies
          [ {| LayerDigest := "sha256:aaa"; LayerAvailability := "AVAILABLE" |} ])
    21 ["ecr-copy"; "src"; "app:v1"; "dst"; "v2"]%string
  = ([BatchGetImage "src" {| ImageDigest := None; ImageTag := Some "app:v1"%string |};
      BatchCheckLayerAvailability "dst" ["sha256:aaa"; "sha256:bbb"; "sha256:ccc"]%string]
       ++ opening "src" "dst" "sha256:bbb" "sha256:bbb"
       ++ ranged_calls "dst" "up3" 0 (chunks 4 Demo.text)
       ++ [CompleteLayerUpload "dst" "up3" [token "up3" (Sha256.Sum256 Demo.text)]]
       ++ opening "src" "dst" "sha256:ccc" "sha256:ccc"
       ++ ranged_calls "dst" "up10" 0 [bytes_of_string "cfg"]
       ++ [CompleteLayerUpload "dst" "up10"
             [token "up10" (Sha256.Sum256 (bytes_of_string "cfg"))]]
       ++ [PutImage "dst" Demo.manifestText (Some "v2"%string)],
     Done).
Proof. vm_compute. reflexivity. Qed.

(** What [run] publishes: nothing unless every step before succeeded, and
    then the manifest string of the source's answer. *)
Lemma run_publication w fuel args t o :
  run w fuel args [] = (t, o) ->
  let tag := if (length args =? 5)%nat
             then (if String.eqb (arg args 4) "" then None else Some (arg args 4))
             else None in
  (put_calls t = [] /\ o <> Ok tt)
  \/ (exists imageManifest,
         batchGetImage w [] (arg args 1) (imageId (arg args 2)) = Success [imageManifest]
         /\ put_calls t = [PutImage (arg args 3) imageManifest tag]
         /\ last t = Some (PutImage (arg args 3) imageManifest tag)).
Proof.
  intros Hrun. cbv zeta. unfold run, bind in Hrun.
  pose proof (getManifest_publishes_nothing w (arg args 1) (arg args 2) []) as H1.
  destruct (getManifest w (arg args 1) (arg args 2) []) as [ta oa] eqn:Hget.
  cbn [fst] in H1. change (put_calls []) with (@nil call) in H1.
  assert (Himg : forall manifest layers, oa = Ok (manifest, layers) ->
                 batchGetImage w [] (arg args 1) (imageId (arg args 2)) = Success [manifest]).
  { intros manifest layers ->. revert Hget. unfold getManifest, bind, request.
    destruct (batchGetImage w [] (arg args 1) (imageId (arg args 2)))
      as [[| img [| ? ?]] | e]; try done.
    destruct (unmarshal w img); [| done]. by intros [= _ ->]. }
  destruct oa as [[manifest layers] | e | msg |];
    [| injection Hrun as <- <-; by left..].
  specialize (Himg manifest layers eq_refl). cbv beta iota in Hrun.
  pose proof (checkLayerAvails_publishes_nothing w (arg args 3) layers ta) as H2.
  destruct (checkLayerAvails w (arg args 3) layers ta) as [tb [needed | e | msg |]];
    cbn [fst] in H2;
    [| injection Hrun as <- <-; left; split; [congruence | done]..].
  pose proof (copyLayers_publishes_nothing w fuel (arg args 1) (arg args 3) needed tb) as H3.
  destruct (copyLayers w fuel (arg args 1) (arg args 3) needed tb) as [tc [[] | e | msg |]];
    cbn [fst] in H3;
    [| injection Hrun as <- <-; left; split; [congruence | done]..].
  right. exists manifest. split; [exact Himg |].
  unfold putManifest, request in Hrun.
  assert (Htag : (if String.eqb (if (length args =? 5)%nat then arg args 4 else EmptyString) ""
                  then None
                  else Some (if (length args =? 5)%nat then arg args 4 else EmptyString))
                 = (if (length args =? 5)%nat
                    then (if String.eqb (arg args 4) "" then None else Some (arg args 4))
                    else None))
    by (destruct (length args =? 5)%nat; reflexivity).
  rewrite Htag in Hrun.
  assert (Ht : t = tc ++ [PutImage (arg args 3) manifest
                            (if (length args =? 5)%nat
                             then (if String.eqb (arg args 4) "" then None
                                   else Some (arg args 4))
                             else None)])
    by (destruct (putImage w tc _ _ _); by injection Hrun as <- _).
  rewrite Ht, put_calls_app, last_snoc. split; [| reflexivity].
  cbn. rewrite H3, H2, H1. reflexivity.
Qed.

(** C9. The manifest is republished verbatim.  In every run of [main] the
    only manifest publication there can be carries, for the destination
    repository, the very string the source returned as the image's
    manifest; the parsed structure does not enter it.  A run that ends
    normally has made that publication. *)
Theorem manifest_republished_verbatim w fuel args :
  let t := fst (main w fuel args) in
  let tag := if (length args =? 5)%nat
             then (if String.eqb (arg args 4) "" then None else Some (arg args 4))
             else None in
  (put_calls t = [] /\ snd (main w fuel args) <> Done)
  \/ (exists imageManifest,
         batchGetImage w [] (arg args 1) (imageId (arg args 2)) = Success [imageManifest]
         /\ put_calls t = [PutImage (arg args 3) imageManifest tag]
         /\ last t = Some (PutImage (arg args 3) imageManifest tag)).
Proof.
  cbv zeta. unfold main.
  destruct ((length args <? 4)%nat || (5 <? length args)%nat); [by left |].
  destruct (run w fuel args []) as [t o] eqn:Hrun.
  apply run_publication in Hrun.
  destruct Hrun as [[Hnone Ho] | Hsome].
  - left. destruct o as [[] | e | msg |]; by cbn [fst snd].
  - right. by destruct o as [[] | e | msg |]; cbn [fst].
Qed.


(** * Further properties of the code *)

(** ** What a computation appends to the trace *)

Lemma emits_ret {A} P (a : A) : emits P (ret a).
Proof. intros t. exists []. by rewrite app_nil_r. Qed.

Lemma emits_fail {A} P (o : outcome A) : emits P (fail o).
Proof. intros t. exists []. by rewrite app_nil_r. Qed.

Lemma emits_request {A} (P : call -> Prop) c (answer : list call -> reply A) prefix :
  P c -> emits P (request c answer prefix).
Proof.
  intros Hc t. exists [c]. unfold request.
  destruct (answer t); (split; [reflexivity | by constructor]).
Qed.

Lemma emits_bind {A B} P (m : M A) (k : A -> M B) :
  emits P m -> (forall a, emits P (k a)) -> emits P (bind m k).
Proof.
  intros Hm Hk t. destruct (Hm t) as (e1 & H1 & F1). unfold bind.
  destruct (m t) as [t' [a | e | msg |]]; cbn [fst] in *; subst t'; eauto.
  destruct (Hk a (t ++ e1)) as (e2 & H2 & F2).
  exists (e1 ++ e2). rewrite H2, app_assoc. split; [done | by apply Forall_app].
Qed.


Lemma filter_none (P : call -> Prop) (f : call -> bool) ext :
  (forall c, P c -> f c = false) -> Forall P ext -> List.filter f ext = [].
Proof.
  intros HP. induction 1 as [| c ext Hc _ IH]; [done |].
  cbn [List.filter]. by rewrite (HP c Hc).
Qed.

Lemma uploadParts_emits w fuel destRepo layerDigest upload :
  forall body b first sha,
    emits (part_call destRepo (UploadId upload))
      (uploadParts w fuel destRepo layerDigest upload body b first sha).
Proof.
  induction fuel as [| fuel IH]; intros body b first sha; [apply emits_fail |].
  cbn [uploadParts].
  destruct (downloadPart _ _ _ _ _ _) as [[[[body' b'] ps] last] | e | msg |];
    try apply emits_fail.
  destruct (ps =? 0)%nat.
  - destruct last; [apply emits_ret | apply emits_fail].
  - apply emits_bind; [by apply emits_request |].
    intros _. destruct last; [apply emits_ret | apply IH].
Qed.

Ltac short_transfer :=
  cbn [fst snd]; rewrite <- ?app_assoc; cbn [app List.filter is_commit length];
  split; [reflexivity | split; [by repeat constructor | split; [lia | done]]].

(** The calls of one transfer: the request for the download URL, then
    calls to the destination only, among them at most one commit, and
    exactly one when the transfer succeeds. *)
Lemma copyLayer_calls w fuel sourceRepo destRepo layerDigest t :
  exists ext,
    fst (copyLayer w fuel sourceRepo destRepo layerDigest t)
    = t ++ GetDownloadUrlForLayer sourceRepo layerDigest :: ext
    /\ Forall (transfer_call destRepo) ext
    /\ (length (List.filter is_commit ext) <= 1)%nat
    /\ (snd (copyLayer w fuel sourceRepo destRepo layerDigest t) = Ok tt ->
        length (List.filter is_commit ext) = 1%nat).
Proof.
  unfold copyLayer, bind, request.
  destruct (getDownloadUrlForLayer w t sourceRepo layerDigest) as [url | e];
    [| exists []; short_transfer].
  destruct (initiateLayerUpload w _ destRepo) as [upload | e];
    [| exists [InitiateLayerUpload destRepo]; short_transfer].
  destruct (httpGet w _ url) as [body | e];
    [| exists [InitiateLayerUpload destRepo; HttpGet url]; short_transfer].
  destruct (PartSize upload <? 0);
    [exists [InitiateLayerUpload destRepo; HttpGet url]; short_transfer |].
  match goal with |- context [uploadParts w fuel destRepo layerDigest upload body ?b 0 ?sha ?t3] =>
    destruct (uploadParts_emits w fuel destRepo layerDigest upload body b 0 sha t3)
      as (ups & Hups & Fups);
    destruct (uploadParts w fuel destRepo layerDigest upload body b 0 sha t3) as [t1 o1]
  end.
  cbn [fst] in Hups. subst t1.
  assert (Hnc : List.filter is_commit ups = [])
    by (eapply filter_none; [| exact Fups]; by intros []).
  assert (Htc : Forall (transfer_call destRepo) ups)
    by (eapply Forall_impl; [exact Fups |]; intros [] Hc; try done; by destruct Hc).
  destruct o1 as [sha | e | msg |].
  - match goal with |- context [CompleteLayerUpload destRepo (UploadId upload) ?ds] =>
      exists ([InitiateLayerUpload destRepo; HttpGet url] ++ ups
                ++ [CompleteLayerUpload destRepo (UploadId upload) ds])
    end.
    split; [destruct (completeLayerUpload w _ _ _ _); cbn [fst];
            rewrite <- !app_assoc; reflexivity |].
    split; [repeat constructor; apply Forall_app; split; [exact Htc | by repeat constructor] |].
    cbn [app List.filter is_commit]. rewrite List.filter_app, Hnc. cbn. split; [lia | done].
  - exists ([InitiateLayerUpload destRepo; HttpGet url] ++ ups).
    cbn [fst snd app List.filter is_commit]. rewrite <- !app_assoc, Hnc.
    split; [reflexivity | split; [by repeat constructor | split; [cbn; lia | done]]].
  - exists ([InitiateLayerUpload destRepo; HttpGet url] ++ ups).
    cbn [fst snd app List.filter is_commit]. rewrite <- !app_assoc, Hnc.
    split; [reflexivity | split; [by repeat constructor | split; [cbn; lia | done]]].
  - exists ([InitiateLayerUpload destRepo; HttpGet url] ++ ups).
    cbn [fst snd app List.filter is_commit]. rewrite <- !app_assoc, Hnc.
    split; [reflexivity | split; [by repeat constructor | split; [cbn; lia | done]]].
Qed.

(** The calls of a sequence of transfers: the download requests are those
    of the leading [k] blobs of the list, in order, with at most one commit
    each; a sequence that succeeds has gone through the whole list and
    committed every blob. *)
Lemma copyLayers_calls w fuel sourceRepo destRepo layers :
  forall t,
    exists ext k,
      fst (copyLayers w fuel sourceRepo destRepo layers t) = t ++ ext
      /\ (k <= length layers)%nat
      /\ List.filter is_download ext
         = map (fun l => GetDownloadUrlForLayer sourceRepo (Digest l)) (take k layers)
      /\ (length (List.filter is_commit ext) <= k)%nat
      /\ Forall (fun c => is_download c = true \/ transfer_call destRepo c) ext
      /\ (snd (copyLayers w fuel sourceRepo destRepo layers t) = Ok tt ->
          k = length layers /\ length (List.filter is_commit ext) = length layers).
Proof.
  induction layers as [| l layers IH]; intros t.
  - exists [], O. cbn. rewrite app_nil_r. repeat split; done.
  - cbn [copyLayers]. unfold bind, wrap.
    destruct (copyLayer_calls w fuel sourceRepo destRepo (Digest l) t)
      as (e1 & H1 & F1 & C1 & O1).
    assert (Hnd : List.filter is_download e1 = [])
      by (eapply filter_none; [| exact F1]; by intros []).
    assert (F1' : Forall (fun c => is_download c = true \/ transfer_call destRepo c) e1)
      by (eapply Forall_impl; [exact F1 |]; intros c Hc; by right).
    destruct (copyLayer w fuel sourceRepo destRepo (Digest l) t) as [t1 o1].
    cbn [fst snd] in *. subst t1.
    destruct o1 as [[] | e | msg |].
    + destruct (IH (t ++ GetDownloadUrlForLayer sourceRepo (Digest l) :: e1))
        as (e2 & k & H2 & Hk & D2 & C2 & F2 & O2).
      exists (GetDownloadUrlForLayer sourceRepo (Digest l) :: e1 ++ e2), (S k).
      rewrite H2, <- app_assoc. cbn [app take map length List.filter is_download is_commit].
      rewrite !List.filter_app, Hnd, D2, length_app. cbn [app].
      specialize (O1 eq_refl).
      split; [done |]. split; [lia |]. split; [done |]. split; [lia |].
      split; [constructor; [by left |]; by apply Forall_app |].
      intros Hok. destruct (O2 Hok) as [Hk' Hc']. rewrite Hc'. split; [by f_equal | lia].
    + exists (GetDownloadUrlForLayer sourceRepo (Digest l) :: e1), 1%nat.
      cbn [fst snd take map length List.filter is_download is_commit].
      rewrite Hnd.
      split; [done |]. split; [lia |]. split; [done |]. split; [lia |].
      split; [constructor; [by left | done] | done].
    + exists (GetDownloadUrlForLayer sourceRepo (Digest l) :: e1), 1%nat.
      cbn [fst snd take map length List.filter is_download is_commit].
      rewrite Hnd.
      split; [done |]. split; [lia |]. split; [done |]. split; [lia |].
      split; [constructor; [by left | done] | done].
    + exists (GetDownloadUrlForLayer sourceRepo (Digest l) :: e1), 1%nat.
      cbn [fst snd take map length List.filter is_download is_commit].
      rewrite Hnd.
      split; [done |]. split; [lia |]. split; [done |]. split; [lia |].
      split; [constructor; [by left | done] | done].
Qed.

Lemma getManifest_emits w sourceRepo imageDigestOrTag :
  emits (fun c => is_download c = false /\ is_commit c = false)
    (getManifest w sourceRepo imageDigestOrTag).
Proof.
  unfold getManifest.
  apply emits_bind; [by apply emits_request | intros images].
  destruct images as [| img [| ? ?]]; try apply emits_fail.
  destruct (unmarshal w img); [apply emits_ret | apply emits_fail].
Qed.

Lemma checkLayerAvails_emits w destRepo layers :
  emits (fun c => is_download c = false /\ is_commit c = false)
    (checkLayerAvails w destRepo layers).
Proof.
  unfold checkLayerAvails.
  apply emits_bind; [by apply emits_request | intros avails]. apply emits_ret.
Qed.

(** A run that publishes has resolved the image, computed the plan and
    copied all of it. *)
Lemma run_shape w fuel args t o :
  run w fuel args [] = (t, o) ->
  put_calls t <> [] ->
  exists manifest layers needed ta tb tc tag,
    getManifest w (arg args 1) (arg args 2) [] = (ta, Ok (manifest, layers))
    /\ checkLayerAvails w (arg args 3) layers ta = (tb, Ok needed)
    /\ copyLayers w fuel (arg args 1) (arg args 3) needed tb = (tc, Ok tt)
    /\ t = tc ++ [PutImage (arg args 3) manifest tag].
Proof.
  intros Hrun Hput. unfold run, bind in Hrun.
  pose proof (getManifest_publishes_nothing w (arg args 1) (arg args 2) []) as H1.
  destruct (getManifest w (arg args 1) (arg args 2) []) as [ta oa] eqn:Hget.
  cbn [fst] in H1. change (put_calls []) with (@nil call) in H1.
  destruct oa as [[manifest layers] | e | msg |];
    [| injection Hrun as <- <-; done..].
  cbv beta iota in Hrun.
  pose proof (checkLayerAvails_publishes_nothing w (arg args 3) layers ta) as H2.
  destruct (checkLayerAvails w (arg args 3) layers ta) as [tb [needed | e | msg |]] eqn:Hcheck;
    cbn [fst] in H2; [| injection Hrun as <- <-; congruence..].
  pose proof (copyLayers_publishes_nothing w fuel (arg args 1) (arg args 3) needed tb) as H3.
  destruct (copyLayers w fuel (arg args 1) (arg args 3) needed tb)
    as [tc [[] | e | msg |]] eqn:Hcopy;
    cbn [fst] in H3; [| injection Hrun as <- <-; congruence..].
  unfold putManifest, request in Hrun.
  exists manifest, layers, needed, ta, tb, tc.
  eexists. do 3 (split; [first [reflexivity | assumption] |]).
  by destruct (putImage w tc _ _ _); injection Hrun as <- _.
Qed.





(** X2. No image or several.  When the source answers the lookup with a
    number of images other than one, the run ends in [log.Fatal] with an
    error that names the number, after that single call: nothing is checked,
    copied or published. *)
Theorem ambiguous_image_is_fatal w fuel args images :
  (4 <= length args <= 5)%nat ->
  batchGetImage w [] (arg args 1) (imageId (arg args 2)) = Success images ->
  length images <> 1%nat ->
  main w fuel args
  = ([BatchGetImage (arg args 1) (imageId (arg args 2))],
     Fatal ("BatchGetImage: Got " +:+ pretty (length images) +:+ " Images")).
Proof.
  intros Hargs Himages Hcount. unfold main.
  replace ((length args <? 4)%nat || (5 <? length args)%nat) with false
    by (symmetry; apply orb_false_intro; apply Nat.ltb_ge; lia).
  unfold run, bind, getManifest, bind, request. rewrite Himages.
  destruct images as [| img [| img' images]]; try reflexivity. done.
Qed.

Lemma ambiguous_image_is_fatal_witness :
  main (ambiguous []) 5 ["ecr-copy"; "src"; "app:v1"; "dst"]%string
  = ([BatchGetImage "src" (imageId "app:v1")], Fatal "BatchGetImage: Got 0 Images")
  /\ main (ambiguous ["a"; "b"]%string) 5 ["ecr-copy"; "src"; "app:v1"; "dst"]%string
     = ([BatchGetImage "src" (imageId "app:v1")], Fatal "BatchGetImage: Got 2 Images").
Proof.
  split.
  - apply (ambiguous_image_is_fatal (ambiguous []) 5
             ["ecr-copy"; "src"; "app:v1"; "dst"]%string []);
      [cbn; lia | reflexivity | cbn; lia].
  - apply (ambiguous_image_is_fatal (ambiguous ["a"; "b"]%string) 5
             ["ecr-copy"; "src"; "app:v1"; "dst"]%string ["a"; "b"]%string);
      [cbn; lia | reflexivity | cbn; lia].
Defined.

(** ** The reference heuristic *)

Lemma cut_colon_found before hex :
  no_colon before = true ->
  cut_colon (before +:+ ":" +:+ hex) = (before, hex, true).
Proof.
  induction before as [| c before IH]; intros Hnc; [reflexivity |].
  cbn [no_colon all_chars] in Hnc. apply andb_prop in Hnc as [Hc Hnc].
  apply negb_true_iff in Hc. specialize (IH Hnc).
  simpl in IH |- *. by rewrite Hc, IH.
Qed.

Lemma cut_colon_spec s :
  let '(before, after, found) := cut_colon s in
  no_colon before = true
  /\ (if found then s = before +:+ ":" +:+ after else s = before /\ after = EmptyString).
Proof.
  induction s as [| c s IH]; [done |].
  cbn [cut_colon]. destruct (Ascii.eqb_spec c ":") as [-> | Hc]; [done |].
  destruct (cut_colon s) as [[before after] found]. destruct IH as [Hnc Hs].
  split.
  - cbn [no_colon all_chars]. apply andb_true_intro. split; [| exact Hnc].
    apply negb_true_iff. by apply Ascii.eqb_neq.
  - destruct found; [by rewrite Hs | destruct Hs as [-> ->]; done].
Qed.

(** X3. Digest or tag.  [getManifest] looks an image up by digest exactly
    when the reference has a colon and what follows its first colon is a
    non-empty run of the characters [0-9a-f]; every other reference is
    looked up as a tag.  Either way the reference is passed on unchanged. *)
Theorem imageId_digest_iff s :
  let digest_like :=
    exists before hex,
      s = before +:+ ":" +:+ hex /\ no_colon before = true
      /\ hex <> EmptyString /\ all_chars hex_class hex = true in
  (imageId s = {| ImageDigest := Some s; ImageTag := None |} <-> digest_like)
  /\ (imageId s = {| ImageDigest := None; ImageTag := Some s |} <-> ~ digest_like).
Proof.
  cbv zeta. unfold imageId.
  pose proof (cut_colon_spec s) as Hspec.
  destruct (cut_colon s) as [[before after] found] eqn:Hcut.
  destruct Hspec as [Hnc Hs].
  assert (Hre : forall hex, hexRe hex = true
                            <-> hex <> EmptyString /\ all_chars hex_class hex = true).
  { intros hex. unfold hexRe. rewrite andb_true_iff, negb_true_iff, String.eqb_neq. done. }
  assert (Hiff : found && hexRe after = true
                 <-> exists before hex,
                       s = before +:+ ":" +:+ hex /\ no_colon before = true
                       /\ hex <> EmptyString /\ all_chars hex_class hex = true).
  { split.
    - intros H. apply andb_prop in H as [-> Hhex]. apply Hre in Hhex as [? ?].
      exists before, after. done.
    - intros (before' & hex & -> & Hnc' & Hne & Hall).
      rewrite (cut_colon_found before' hex Hnc') in Hcut.
      injection Hcut as <- <- <-. apply andb_true_intro. split; [done |].
      by apply Hre. }
  destruct (found && hexRe after).
  - split; split; try done.
    + intros _. by apply Hiff.
    + intros Hno. destruct Hno. by apply Hiff.
  - split; split; try done.
    + intros Hyes. apply Hiff in Hyes. done.
    + intros _ Hyes. apply Hiff in Hyes. done.
Qed.

(** ** The order and the footprint of the transfers *)

(** X4. One transfer's footprint.  Whatever happens, a transfer starts by
    asking the source repository for the download URL of its own blob, and
    everything it does afterwards is the HTTP GET or a call to the
    destination repository: it never resolves an image, checks availability
    or publishes a manifest, and it tries to commit at most once. *)
Theorem transfer_footprint w fuel sourceRepo destRepo layerDigest t :
  exists ext,
    fst (copyLayer w fuel sourceRepo destRepo layerDigest t)
    = t ++ GetDownloadUrlForLayer sourceRepo layerDigest :: ext
    /\ Forall (transfer_call destRepo) ext
    /\ (length (List.filter is_commit ext) <= 1)%nat.
Proof.
  destruct (copyLayer_calls w fuel sourceRepo destRepo layerDigest t)
    as (ext & H & F & C & _).
  by exists ext.
Qed.

(** X5. Transfers follow the plan.  The blobs [copyLayers] starts to
    download are the leading blobs of the list it is given, one request
    each, in the list's order and never a blob twice over or out of turn;
    when it returns without error it has gone through the whole list and
    committed once per blob. *)
Theorem transfers_in_plan_order w fuel sourceRepo destRepo layers t :
  exists ext k,
    fst (copyLayers w fuel sourceRepo destRepo layers t) = t ++ ext
    /\ (k <= length layers)%nat
    /\ List.filter is_download ext
       = map (fun l => GetDownloadUrlForLayer sourceRepo (Digest l)) (take k layers)
    /\ (snd (copyLayers w fuel sourceRepo destRepo layers t) = Ok tt ->
        k = length layers /\ length (List.filter is_commit ext) = length layers).
Proof.
  destruct (copyLayers_calls w fuel sourceRepo destRepo layers t)
    as (ext & k & H & Hk & D & _ & _ & O).
  by exists ext, k.
Qed.

Lemma filter_emitted {A} (m : M A) t :
  emits (fun c => is_download c = false /\ is_commit c = false) m ->
  List.filter is_download (fst (m t)) = List.filter is_download t
  /\ List.filter is_commit (fst (m t)) = List.filter is_commit t.
Proof.
  intros Hm. destruct (Hm t) as (ext & -> & F).
  rewrite !List.filter_app.
  rewrite (filter_none _ is_download ext (fun c H => proj1 H) F).
  rewrite (filter_none _ is_commit ext (fun c H => proj2 H) F).
  by rewrite !app_nil_r.
Qed.

(** X6. Publication comes last.  Whenever a run of [main] has tried to
    publish the manifest, the image was resolved, the plan was computed and
    every blob of the plan had been downloaded and committed before, in the
    plan's order; the publication is the last call of the run. *)
Theorem publish_after_all_commits w fuel args :
  put_calls (fst (main w fuel args)) <> [] ->
  exists manifest layers needed ta tb tag,
    getManifest w (arg args 1) (arg args 2) [] = (ta, Ok (manifest, layers))
    /\ checkLayerAvails w (arg args 3) layers ta = (tb, Ok needed)
    /\ snd (copyLayers w fuel (arg args 1) (arg args 3) needed tb) = Ok tt
    /\ List.filter is_download (fst (main w fuel args))
       = map (fun l => GetDownloadUrlForLayer (arg args 1) (Digest l)) needed
    /\ length (List.filter is_commit (fst (main w fuel args))) = length needed
    /\ last (fst (main w fuel args)) = Some (PutImage (arg args 3) manifest tag).
Proof.
  unfold main.
  destruct ((length args <? 4)%nat || (5 <? length args)%nat); [done |].
  destruct (run w fuel args []) as [t o] eqn:Hrun.
  intros Hput.
  assert (Hput' : put_calls t <> []) by (by destruct o).
  destruct (run_shape w fuel args t o Hrun Hput')
    as (manifest & layers & needed & ta & tb & tc & tag & Hget & Hcheck & Hcopy & Ht).
  exists manifest, layers, needed, ta, tb, tag.
  split; [exact Hget |]. split; [exact Hcheck |]. split; [by rewrite Hcopy |].
  assert (Hfst : fst (let (t, o) := (t, o) in
                      match o with
                      | Ok _ => (t, Done) | Err e => (t, Fatal e)
                      | Panic msg => (t, Crash msg) | Spin => (t, Hang)
                      end) = t) by (by destruct o).
  rewrite Hfst. clear Hfst.
  destruct (filter_emitted (getManifest w (arg args 1) (arg args 2)) []
              (getManifest_emits w _ _)) as [Hd1 Hc1].
  destruct (filter_emitted (checkLayerAvails w (arg args 3) layers) ta
              (checkLayerAvails_emits w _ _)) as [Hd2 Hc2].
  rewrite Hget in Hd1, Hc1. rewrite Hcheck in Hd2, Hc2. cbn [fst] in *.
  destruct (copyLayers_calls w fuel (arg args 1) (arg args 3) needed tb)
    as (ext & k & H & Hk & D & _ & _ & O).
  rewrite Hcopy in H, O. cbn [fst snd] in *. destruct (O eq_refl) as [-> Hcount].
  rewrite firstn_all in D.
  rewrite Ht, H, !List.filter_app, Hd2, Hd1, Hc2, Hc1, D, last_snoc.
  cbn. rewrite !app_nil_r. done.
Qed.

(** The scenario of the specification: a publication, after the two blobs
    the destination lacked. *)
Lemma publish_after_all_commits_witness :
  let w := Demo.registry 4 Demo.bodies
             [ {| LayerDigest := "sha256:aaa"; LayerAvailability := "AVAILABLE" |} ] in
  let args := ["ecr-copy"; "src"; "app:v1"; "dst"; "v2"]%string in
  exists needed,
    List.filter is_download (fst (main w 21 args))
    = map (fun l => GetDownloadUrlForLayer "src" (Digest l)) needed
    /\ length (List.filter is_commit (fst (main w 21 args))) = length needed.
Proof.
  intros w args.
  destruct (publish_after_all_commits w 21 args)
    as (_ & _ & needed & _ & _ & _ & _ & _ & _ & Hd & Hc & _).
  - vm_compute. discriminate.
  - exists needed. split; [exact Hd | exact Hc].
Defined.

(** ** Panics and loops without end *)





Lemma downloadPart_zero fuel digest :
  forall body,
    pending body <> [] ->
    reliable body = true ->
    downloadPart fuel digest 0 body [] 0 = Spin.
Proof.
  induction fuel as [| fuel IH]; intros [pend scr flag] Hpend Hrel; [done |].
  cbn [pending script] in *.
  cbn [downloadPart]. unfold Read, deliver, reliable in *.
  cbn [pending script eof_with_data length Nat.sub] in *.
  destruct pend as [| a pend]; [done |].
  destruct scr as [| [k | | e] rest]; rewrite ?Nat.min_0_r; cbn [take length Nat.eqb];
    rewrite ?drop_0, ?write_at_nil.
  - by apply IH.
  - apply IH; [done |]. cbn [forallb] in Hrel. by apply andb_prop in Hrel as [_ ?].
  - apply IH; [done |]. cbn [forallb] in Hrel. by apply andb_prop in Hrel as [_ ?].
  - cbn in Hrel. done.
Qed.

(** X8. A part size of zero.  If the destination opens a session with part
    size 0 and the blob is not empty, the part buffer has no room: every
    read returns no bytes and no error, the inner loop tries again, and the
    transfer never ends, whatever the number of reads allowed; no part is
    uploaded and nothing is committed. *)
Theorem zero_part_size_never_ends w fuel sourceRepo destRepo layerDigest url upload body t :
  session w t sourceRepo destRepo layerDigest url upload body ->
  PartSize upload = 0 ->
  pending body <> [] ->
  reliable body = true ->
  copyLayer w fuel sourceRepo destRepo layerDigest t
  = (t ++ opening sourceRepo destRepo layerDigest url, Spin).
Proof.
  intros Hsession HP Hpend Hrel.
  rewrite (copyLayer_unfold w sourceRepo destRepo layerDigest url upload body t Hsession)
    by lia.
  rewrite HP. cbn [Z.to_nat replicate].
  destruct fuel as [| fuel]; [reflexivity |].
  cbn [uploadParts]. rewrite HP. cbn [Z.to_nat].
  by rewrite downloadPart_zero.
Qed.

Lemma zero_part_size_never_ends_witness :
  copyLayer (Demo.registry 0 (fun _ => Demo.bytewise) []) 1000 "src" "dst" "sha256:aaa" []
  = (opening "src" "dst" "sha256:aaa" "sha256:aaa", Spin).
Proof.
  apply (zero_part_size_never_ends (Demo.registry 0 (fun _ => Demo.bytewise) []) 1000
           "src" "dst" "sha256:aaa" "sha256:aaa"
           {| UploadId := "up1"; PartSize := 0 |} Demo.bytewise []).
  - repeat split; reflexivity.
  - reflexivity.
  - discriminate.
  - reflexivity.
Defined.

(** ** Failures and empty plans *)

(** X9. A refused part.  When the registry refuses the first part of a
    blob, the transfer stops there with an error that names the blob and
    the byte range of the part: no further part is uploaded and nothing is
    committed. *)
Theorem refused_part_aborts w fuel sourceRepo destRepo layerDigest url upload body t e :
  session w t sourceRepo destRepo layerDigest url upload body ->
  0 < PartSize upload < 2 ^ 63 ->
  reliable body = true ->
  pending body <> [] ->
  (reads body <= fuel)%nat ->
  let part := take (Z.to_nat (PartSize upload)) (pending body) in
  let last := Z.of_nat (length part) - 1 in
  uploadLayerPart w (t ++ opening sourceRepo destRepo layerDigest url)
    part 0 last destRepo (UploadId upload) = Failure e ->
  copyLayer w fuel sourceRepo destRepo layerDigest t
  = ((t ++ opening sourceRepo destRepo layerDigest url)
       ++ [UploadLayerPart part 0 last destRepo (UploadId upload)],
     Err (("UploadLayerPart(" +:+ layerDigest +:+ ") (" +:+ pretty 0 +:+ "-"
             +:+ pretty last +:+ "): ") +:+ e)).
Proof.
  intros Hsession HP Hrel Hpend Hfuel part last Hrefuse.
  rewrite (copyLayer_unfold w sourceRepo destRepo layerDigest url upload body t Hsession)
    by lia.
  set (b := replicate (Z.to_nat (PartSize upload)) x00).
  assert (Hb : length b = Z.to_nat (PartSize upload)) by apply length_replicate.
  unfold reads in Hfuel. destruct fuel as [| fuel]; [lia |].
  cbn [uploadParts]. rewrite <- Hb.
  destruct (downloadPart_runs (S fuel) layerDigest body b 0) as (body' & b' & ps & lastPart & Hdl & _);
    [lia | exact Hrel | lia |].
  rewrite Hdl. apply downloadPart_ok in Hdl; [| lia].
  rewrite Nat.sub_0_r, Nat.add_0_l, take_0 in Hdl. cbn [app] in Hdl.
  destruct Hdl as (Hps & Hb' & Htake & _).
  assert (Hpart : take ps b' = part)
    by (rewrite Htake, Hb; symmetry; apply take_min).
  assert (Hlen : length part = ps).
  { subst part. rewrite length_take, Hps, Hb. reflexivity. }
  assert (Hne : (0 < ps)%nat).
  { rewrite Hps. destruct (pending body); [done |]. cbn [length]. lia. }
  destruct (Nat.eqb_spec ps 0) as [Hz | _]; [lia |].
  rewrite Hpart. unfold bind, request.
  replace (wrap64 (0 + Z.of_nat ps - 1)) with last
    by (subst last; rewrite Hlen, wrap64_id; lia).
  rewrite Hrefuse. reflexivity.
Qed.

Lemma refused_part_aborts_witness :
  copyLayer (refusing 4 Demo.bytewise) 21 "src" "dst" "sha256:aaa" []
  = (opening "src" "dst" "sha256:aaa" "sha256:aaa"
       ++ [UploadLayerPart (bytes_of_string "0123") 0 3 "dst" "up"],
     Err "UploadLayerPart(sha256:aaa) (0-3): access denied").
Proof.
  apply (refused_part_aborts (refusing 4 Demo.bytewise) 21
           "src" "dst" "sha256:aaa" "sha256:aaa"
           {| UploadId := "up"; PartSize := 4 |} Demo.bytewise [] "access denied").
  - repeat split; reflexivity.
  - cbn. lia.
  - reflexivity.
  - discriminate.
  - vm_compute. lia.
  - reflexivity.
Defined.

Lemma unavailLayers_all_available avails layers :
  Forall (fun l => reported_available avails (Digest l) = true) layers ->
  unavailLayers (destHasLayer avails) layers = [].
Proof.
  intros Hall. rewrite unavailLayers_filter.
  induction Hall as [| l layers Hl _ IH]; [done |].
  cbn [List.filter]. by rewrite has_destHasLayer, Hl.
Qed.

(** X10. Nothing to copy.  When the destination reports every blob of the
    image as [AVAILABLE], the run consists of the lookup, the availability
    check and the publication of the manifest: no blob is downloaded and no
    upload session is opened. *)
Theorem nothing_to_copy w fuel args imageManifest m avails :
  (4 <= length args <= 5)%nat ->
  batchGetImage w [] (arg args 1) (imageId (arg args 2)) = Success [imageManifest] ->
  unmarshal w imageManifest = Success m ->
  batchCheckLayerAvailability w [BatchGetImage (arg args 1) (imageId (arg args 2))]
    (arg args 3) (map Digest (Layers m ++ [Config m])) = Success avails ->
  Forall (fun l => reported_available avails (Digest l) = true) (Layers m ++ [Config m]) ->
  exists tag,
    fst (main w fuel args)
    = [BatchGetImage (arg args 1) (imageId (arg args 2));
       BatchCheckLayerAvailability (arg args 3) (map Digest (Layers m ++ [Config m]));
       PutImage (arg args 3) imageManifest tag].
Proof.
  intros Hargs Himg Hparse Hcheck Hall. unfold main.
  replace ((length args <? 4)%nat || (5 <? length args)%nat) with false
    by (symmetry; apply orb_false_intro; apply Nat.ltb_ge; lia).
  assert (Hget : getManifest w (arg args 1) (arg args 2) []
                 = ([BatchGetImage (arg args 1) (imageId (arg args 2))],
                    Ok (imageManifest, Layers m ++ [Config m])))
    by (unfold getManifest, bind, request; by rewrite Himg, Hparse).
  assert (Hplan : checkLayerAvails w (arg args 3) (Layers m ++ [Config m])
                    [BatchGetImage (arg args 1) (imageId (arg args 2))]
                  = ([BatchGetImage (arg args 1) (imageId (arg args 2));
                      BatchCheckLayerAvailability (arg args 3)
                        (map Digest (Layers m ++ [Config m]))],
                     Ok [])).
  { unfold checkLayerAvails, bind, request, ret. rewrite Hcheck.
    by rewrite unavailLayers_all_available. }
  unfold run, bind. rewrite Hget, Hplan.
  cbn [copyLayers]. unfold ret, putManifest, request.
  eexists.
  match goal with |- context [putImage w ?t2 ?r ?mf ?tg] =>
    destruct (putImage w t2 r mf tg) end; reflexivity.
Qed.

Lemma nothing_to_copy_witness :
  exists tag,
    fst (main (Demo.registry 4 Demo.bodies
                 [ {| LayerDigest := "sha256:ccc"; LayerAvailability := "AVAILABLE" |};
                   {| LayerDigest := "sha256:aaa"; LayerAvailability := "AVAILABLE" |};
                   {| LayerDigest := "sha256:bbb"; LayerAvailability := "AVAILABLE" |} ])
           0 ["ecr-copy"; "src"; "app:v1"; "dst"]%string)
    = [BatchGetImage "src" (imageId "app:v1");
       BatchCheckLayerAvailability "dst" ["sha256:aaa"; "sha256:bbb"; "sha256:ccc"]%string;
       PutImage "dst" Demo.manifestText tag].
Proof.
  apply (nothing_to_copy
           (Demo.registry 4 Demo.bodies
              [ {| LayerDigest := "sha256:ccc"; LayerAvailability := "AVAILABLE" |};
                {| LayerDigest := "sha256:aaa"; LayerAvailability := "AVAILABLE" |};
                {| LayerDigest := "sha256:bbb"; LayerAvailability := "AVAILABLE" |} ])
           0 ["ecr-copy"; "src"; "app:v1"; "dst"]%string Demo.manifestText Demo.image
           [ {| LayerDigest := "sha256:ccc"; LayerAvailability := "AVAILABLE" |};
             {| LayerDigest := "sha256:aaa"; LayerAvailability := "AVAILABLE" |};
             {| LayerDigest := "sha256:bbb"; LayerAvailability := "AVAILABLE" |} ]).
  - cbn. lia.
  - reflexivity.
  - reflexivity.
  - reflexivity.
  - repeat constructor.
Defined.

(** ** Counting parts and bytes *)

Lemma chunks_length partLen blob :
  (0 < partLen)%nat ->
  length (chunks partLen blob) = ((length blob + partLen - 1) / partLen)%nat.
Proof.
  intros HP. revert blob. apply (chunks_ind partLen); [exact HP | | intros blob Hne IH].
  - rewrite chunks_nil. cbn [length]. symmetry. apply Nat.div_small. lia.
  - rewrite chunks_step by done. cbn [length]. rewrite IH, length_drop.
    assert (Hlen : (0 < length blob)%nat) by (destruct blob; [done | cbn; lia]).
    destruct (decide (partLen <= length blob)%nat) as [Hge | Hlt].
    + replace (length blob + partLen - 1)%nat
        with ((length blob - partLen + partLen - 1) + 1 * partLen)%nat by lia.
      rewrite Nat.div_add by lia. lia.
    + replace (length blob - partLen)%nat with O by lia.
      rewrite (Nat.div_small (0 + partLen - 1)) by lia.
      apply (Nat.div_unique _ _ 1 (length blob - 1)); lia.
Qed.

(** X11. No byte lost, none added.  A transfer that goes through uploads
    the blob in [ceil(length / partSize)] parts whose concatenation, in the
    order of upload, is the blob. *)
Theorem bytes_conserved w fuel sourceRepo destRepo layerDigest url upload body t :
  session w t sourceRepo destRepo layerDigest url upload body ->
  0 < PartSize upload ->
  reliable body = true ->
  accepting w destRepo (UploadId upload) ->
  (reads body <= fuel)%nat ->
  exists ext,
    copyLayer w fuel sourceRepo destRepo layerDigest t
    = ((t ++ opening sourceRepo destRepo layerDigest url) ++ ext, Ok tt)
    /\ concat (uploaded ext) = pending body
    /\ length (uploaded ext)
       = ((length (pending body) + Z.to_nat (PartSize upload) - 1)
          / Z.to_nat (PartSize upload))%nat.
Proof.
  intros Hsession HP Hrel Hacc Hfuel.
  eexists. split; [by apply copyLayer_success |].
  rewrite uploaded_app, uploaded_part_calls. cbn [uploaded flat_map]. rewrite app_nil_r.
  split; [apply concat_chunks; lia | apply chunks_length; lia].
Qed.

(** Ten bytes in parts of four: three parts. *)
Lemma bytes_conserved_witness :
  exists ext,
    copyLayer (Demo.registry 4 (fun _ => Demo.bytewise) []) 21 "src" "dst" "sha256:aaa" []
    = (opening "src" "dst" "sha256:aaa" "sha256:aaa" ++ ext, Ok tt)
    /\ concat (uploaded ext) = Demo.text
    /\ length (uploaded ext) = 3%nat.
Proof.
  destruct (bytes_conserved (Demo.registry 4 (fun _ => Demo.bytewise) []) 21
              "src" "dst" "sha256:aaa" "sha256:aaa"
              {| UploadId := "up1"; PartSize := 4 |} Demo.bytewise [])
    as (ext & Hrun & Hcat & Hlen).
  - repeat split; reflexivity.
  - reflexivity.
  - reflexivity.
  - split; intros; reflexivity.
  - vm_compute. lia.
  - exists ext. split; [exact Hrun |]. split; [exact Hcat | exact Hlen].
Defined.

(** ** The availability response as a set *)

Lemma destHasLayer_lookup avails digest :
  destHasLayer avails !! digest
  = if reported_available avails digest then Some true else None.
Proof.
  unfold destHasLayer.
  assert (Hgen : forall m : gmap string bool,
             foldl (fun m la =>
                 if String.eqb (LayerAvailability la) "AVAILABLE"
                 then <[LayerDigest la := true]> m else m) m avails !! digest
             = if reported_available avails digest then Some true else m !! digest).
  { induction avails as [| la avails IH]; intros m; cbn [foldl reported_available existsb].
    - reflexivity.
    - rewrite IH.
      destruct (String.eqb_spec (LayerAvailability la) "AVAILABLE") as [Hav | Hav];
        destruct (String.eqb_spec (LayerDigest la) digest) as [Hd | Hd];
        cbn [andb orb]; try done.
      + subst digest. rewrite lookup_insert_eq.
        by destruct (reported_available avails (LayerDigest la)).
      + by rewrite lookup_insert_ne. }
  rewrite Hgen, lookup_empty. reflexivity.
Qed.

(** X12. The response is read as a set.  Two availability responses with
    the same entries, in whatever order and however often repeated, build
    the same map of present digests and therefore the same transfer plan
    for every list of blobs. *)
Theorem response_order_irrelevant avails1 avails2 :
  (forall la, la ∈ avails1 <-> la ∈ avails2) ->
  destHasLayer avails1 = destHasLayer avails2
  /\ forall layers,
       unavailLayers (destHasLayer avails1) layers
       = unavailLayers (destHasLayer avails2) layers.
Proof.
  intros Hsame.
  assert (Hmap : destHasLayer avails1 = destHasLayer avails2).
  { apply map_eq. intros digest. rewrite !destHasLayer_lookup.
    assert (Hrep : reported_available avails1 digest = reported_available avails2 digest).
    { apply eq_true_iff_eq. rewrite !reported_available_spec.
      split; intros (la & Hin & Hla); exists la; (split; [by apply Hsame | done]). }
    by rewrite Hrep. }
  split; [exact Hmap | intros layers; by rewrite Hmap].
Qed.

Lemma response_order_irrelevant_witness :
  let a := {| LayerDigest := "sha256:aaa"; LayerAvailability := "AVAILABLE" |} in
  let b := {| LayerDigest := "sha256:bbb"; LayerAvailability := "UNAVAILABLE" |} in
  destHasLayer [a; b] = destHasLayer [b; a; b; a].
Proof.
  intros a b. apply (response_order_irrelevant [a; b] [b; a; b; a]).
  intros la. rewrite !list_elem_of_In. cbn. tauto.
Defined.

(** ** Errors *)

Lemma getManifest_error w sourceRepo imageDigestOrTag t e :
  snd (getManifest w sourceRepo imageDigestOrTag t) = Err e ->
  (exists rest, e = "BatchGetImage: " +:+ rest)
  \/ (exists rest, e = "Unmarshal ImageManifest: " +:+ rest).
Proof.
  unfold getManifest, bind, request.
  destruct (batchGetImage w t sourceRepo (imageId imageDigestOrTag))
    as [[| img [| ? ?]] | e0]; cbn [snd fail].
  - intros [= <-]. left. eexists. reflexivity.
  - destruct (unmarshal w img) as [m | e1]; [done |].
    intros [= <-]. right. by eexists.
  - intros [= <-]. left. eexists. reflexivity.
  - intros [= <-]. left. by eexists.
Qed.

Lemma copyLayers_error w fuel sourceRepo destRepo layers :
  forall t e,
    snd (copyLayers w fuel sourceRepo destRepo layers t) = Err e ->
    exists rest, e = "copyLayer: " +:+ rest.
Proof.
  induction layers as [| l layers IH]; intros t e; [done |].
  cbn [copyLayers]. unfold bind, wrap.
  destruct (copyLayer w fuel sourceRepo destRepo (Digest l) t) as [t1 [[] | e1 | msg |]];
    cbn [snd]; try done.
  - apply IH.
  - intros [= <-]. by eexists.
Qed.

Lemma run_error w fuel args t e :
  snd (run w fuel args t) = Err e ->
  exists op rest, op ∈ operations /\ e = op +:+ rest.
Proof.
  unfold run, bind.
  pose proof (getManifest_error w (arg args 1) (arg args 2) t) as H1.
  destruct (getManifest w (arg args 1) (arg args 2) t) as [ta [[manifest layers] | e1 | msg |]];
    cbn [snd] in *; try done.
  - unfold checkLayerAvails at 1, bind, request, ret.
    destruct (batchCheckLayerAvailability w ta (arg args 3) (map Digest layers))
      as [avails | e2].
    + pose proof (copyLayers_error w fuel (arg args 1) (arg args 3)
                    (unavailLayers (destHasLayer avails) layers)
                    (ta ++ [BatchCheckLayerAvailability (arg args 3) (map Digest layers)]))
        as H3.
      destruct (copyLayers w fuel (arg args 1) (arg args 3) _ _) as [tc [[] | e3 | msg |]];
        cbn [snd] in *; try done.
      * unfold putManifest, request.
        destruct (putImage w tc _ _ _) as [[] | e4]; cbn [snd]; [done |].
        intros [= <-]. exists "PutImage: "%string, e4.
        split; [| reflexivity]. apply list_elem_of_In. cbn. tauto.
      * intros [= <-]. destruct (H3 e3 eq_refl) as [rest ->].
        exists "copyLayer: "%string, rest.
        split; [| reflexivity]. apply list_elem_of_In. cbn. tauto.
    + cbn [snd]. intros [= <-].
      exists "BatchCheckLayerAvailability: "%string, e2.
      split; [| reflexivity]. apply list_elem_of_In. cbn. tauto.
  - intros [= <-]. destruct (H1 e1 eq_refl) as [[rest ->] | [rest ->]].
    + exists "BatchGetImage: "%string, rest.
      split; [| reflexivity]. apply list_elem_of_In. cbn. tauto.
    + exists "Unmarshal ImageManifest: "%string, rest.
      split; [| reflexivity]. apply list_elem_of_In. cbn. tauto.
Qed.

(** X13. Fatal errors name the operation.  Every error with which [main]
    ends in [log.Fatal] starts with the name of the step that failed: the
    image lookup, the manifest decoding, the availability check, a blob
    transfer or the publication. *)
Theorem fatal_errors_name_operation w fuel args e :
  snd (main w fuel args) = Fatal e ->
  exists op rest, op ∈ operations /\ e = op +:+ rest.
Proof.
  unfold main.
  destruct ((length args <? 4)%nat || (5 <? length args)%nat); [done |].
  pose proof (run_error w fuel args [] e) as Hrun.
  destruct (run w fuel args []) as [t [[] | e0 | msg |]]; cbn [snd] in *; try done.
  intros [= ->]. by apply Hrun.
Qed.

Lemma fatal_errors_name_operation_witness :
  exists op rest,
    op ∈ operations /\ "copyLayer: Read(sha256:bbb): connection reset"%string = op +:+ rest.
Proof.
  apply (fatal_errors_name_operation
           (Demo.registry 4
              (fun url => if String.eqb url "sha256:bbb" then Demo.broken else Demo.whole) [])
           21 ["ecr-copy"; "src"; "app:v1"; "dst"]%string).
  vm_compute. reflexivity.
Defined.

(** ** Committing *)

Lemma part_calls_no_commit destRepo uploadId parts :
  forall first, List.filter is_commit (part_calls destRepo uploadId first parts) = [].
Proof. induction parts as [| p parts IH]; intros first; [done | apply IH]. Qed.

(** X14. No partial blob is committed.  Whatever the registry answers and
    whenever the run stops, if a transfer has tried to commit its session
    then every part of the blob had been uploaded and accepted before: the
    uploaded parts are the whole blob. *)
Theorem commit_only_after_whole_blob w fuel sourceRepo destRepo layerDigest url upload body t :
  session w t sourceRepo destRepo layerDigest url upload body ->
  0 < PartSize upload ->
  exists ext,
    fst (copyLayer w fuel sourceRepo destRepo layerDigest t)
    = (t ++ opening sourceRepo destRepo layerDigest url) ++ ext
    /\ (List.filter is_commit ext <> [] ->
        uploaded ext = chunks (Z.to_nat (PartSize upload)) (pending body)
        /\ concat (uploaded ext) = pending body).
Proof.
  intros Hsession HP.
  destruct (copyLayer_trace w sourceRepo destRepo layerDigest url upload body t
              Hsession fuel HP) as (parts & rest & o & Hrun & _ & Hrest).
  exists (part_calls destRepo (UploadId upload) 0 parts ++ rest).
  split; [by rewrite Hrun |].
  rewrite List.filter_app, part_calls_no_commit, uploaded_app, uploaded_part_calls.
  destruct Hrest as [[-> _] | [-> ->]]; [done |].
  intros _. cbn [uploaded flat_map app]. rewrite app_nil_r.
  split; [reflexivity | apply concat_chunks; lia].
Qed.

Lemma commit_only_after_whole_blob_witness :
  exists ext,
    fst (copyLayer (Demo.registry 4 (fun _ => Demo.whole) []) 11 "src" "dst" "sha256:aaa" [])
    = opening "src" "dst" "sha256:aaa" "sha256:aaa" ++ ext
    /\ (List.filter is_commit ext <> [] ->
        uploaded ext = chunks 4 Demo.text /\ concat (uploaded ext) = Demo.text).
Proof.
  apply (commit_only_after_whole_blob (Demo.registry 4 (fun _ => Demo.whole) []) 11
           "src" "dst" "sha256:aaa" "sha256:aaa"
           {| UploadId := "up1"; PartSize := 4 |} Demo.whole []).
  - repeat split; reflexivity.
  - reflexivity.
Defined.

(** ** The inner loop on its own *)

(** X15. Short reads are gathered.  On a stream that does not break, and
    however its reads are cut, the inner loop started on an empty part ends
    with exactly the next [min(partSize, remaining)] bytes of the stream at
    the front of the buffer, leaves the rest of the stream unread, and sets
    [lastPart] exactly when the stream held fewer bytes than the buffer. *)
Theorem inner_loop_gathers_part fuel digest body b :
  (0 < length b)%nat ->
  reliable body = true ->
  (length (script body) + length (pending body) < fuel)%nat ->
  let m := (length b `min` length (pending body))%nat in
  exists body' b',
    downloadPart fuel digest (length b) body b 0
    = Ok (body', b', m, bool_decide (length (pending body) < length b)%nat)
    /\ length b' = length b
    /\ take m b' = take m (pending body)
    /\ pending body' = drop m (pending body).
Proof.
  intros Hb Hrel Hfuel m.
  destruct (downloadPart_runs fuel digest body b 0 Hb Hrel Hfuel)
    as (body' & b' & ps & last & Hdl & _).
  pose proof (downloadPart_ok fuel digest body b 0 body' b' ps last Hb Hdl) as Hok.
  cbv zeta in Hok. rewrite Nat.sub_0_r, Nat.add_0_l, take_0 in Hok. cbn [app] in Hok.
  destruct Hok as (-> & Hb' & Htake & Hrest & -> & _).
  exists body', b'. by rewrite Hdl.
Qed.

Lemma inner_loop_gathers_part_witness :
  exists body' b',
    downloadPart 21 "sha256:aaa" 4 Demo.bytewise (replicate 4 x00) 0
    = Ok (body', b', 4%nat, false)
    /\ take 4 b' = bytes_of_string "0123"
    /\ pending body' = bytes_of_string "456789".
Proof.
  destruct (inner_loop_gathers_part 21 "sha256:aaa" Demo.bytewise (replicate 4 x00))
    as (body' & b' & Hrun & _ & Htake & Hrest).
  - cbn. lia.
  - reflexivity.
  - cbn. lia.
  - exists body', b'. split; [exact Hrun |]. split; [exact Htake | exact Hrest].
Defined.

(** ** What a transfer does not read *)

(** X16. Only the digest counts.  The transfers depend on the digests of
    the blobs alone: the media type and the size the manifest declares for
    a blob are never read, so a declared size that differs from the number
    of bytes copied goes unnoticed. *)
Theorem copyLayers_by_digest_only w fuel sourceRepo destRepo layers1 layers2 t :
  map Digest layers1 = map Digest layers2 ->
  copyLayers w fuel sourceRepo destRepo layers1 t
  = copyLayers w fuel sourceRepo destRepo layers2 t.
Proof.
  revert layers2 t. induction layers1 as [| l1 layers1 IH]; intros [| l2 layers2] t Hd;
    try done.
  injection Hd as Hd1 Hd. cbn [copyLayers]. unfold bind. rewrite Hd1.
  destruct (wrap "copyLayer: " (copyLayer w fuel sourceRepo destRepo (Digest l2)) t)
    as [t1 [[] | e | msg |]]; try done.
  by apply IH.
Qed.

Lemma copyLayers_by_digest_only_witness :
  copyLayers (Demo.registry 4 Demo.bodies []) 21 "src" "dst" [Demo.layer "sha256:aaa" 10] []
  = copyLayers (Demo.registry 4 Demo.bodies []) 21 "src" "dst"
      [ {| MediaType := "text/plain"; Size := 0; Digest := "sha256:aaa" |} ] [].
Proof.
  apply (copyLayers_by_digest_only (Demo.registry 4 Demo.bodies []) 21 "src" "dst"
           [Demo.layer "sha256:aaa" 10]
           [ {| MediaType := "text/plain"; Size := 0; Digest := "sha256:aaa" |} ] []).
  reflexivity.
Defined.

(** X17. A blob listed twice is planned twice.  The checker does not merge
    equal digests: a digest that is not reported [AVAILABLE] occurs in the
    transfer plan as often as it occurs among the blobs of the manifest. *)
Theorem repeated_blobs_stay_repeated avails layers digest :
  reported_available avails digest = false ->
  length (List.filter (fun l => String.eqb (Digest l) digest)
            (unavailLayers (destHasLayer avails) layers))
  = length (List.filter (fun l => String.eqb (Digest l) digest) layers).
Proof.
  intros Hmissing. rewrite unavailLayers_filter.
  induction layers as [| l layers IH]; [done |].
  cbn [List.filter]. rewrite has_destHasLayer.
  destruct (String.eqb_spec (Digest l) digest) as [Hd | Hd].
  - rewrite Hd, Hmissing. cbn [negb List.filter].
    rewrite <- Hd at 1. rewrite String.eqb_refl. cbn [length]. by rewrite IH.
  - destruct (reported_available avails (Digest l)); cbn [negb List.filter]; [exact IH |].
    apply String.eqb_neq in Hd. by rewrite Hd.
Qed.

Lemma repeated_blobs_stay_repeated_witness :
  length (List.filter (fun l => String.eqb (Digest l) "sha256:aaa")
            (unavailLayers
               (destHasLayer
                  [ {| LayerDigest := "sha256:bbb"; LayerAvailability := "AVAILABLE" |} ])
               [Demo.layer "sha256:aaa" 10; Demo.layer "sha256:bbb" 7;
                Demo.layer "sha256:aaa" 10]))
  = 2%nat.
Proof.
  apply (repeated_blobs_stay_repeated
           [ {| LayerDigest := "sha256:bbb"; LayerAvailability := "AVAILABLE" |} ]
           [Demo.layer "sha256:aaa" 10; Demo.layer "sha256:bbb" 7;
            Demo.layer "sha256:aaa" 10] "sha256:aaa").
  reflexivity.
Defined.
